(** * A lexer for a small C subset: model of [main.c] and its properties

    The development embeds the token list ([create_token_list],
    [add_token]) and the scanner ([lex]) of [main.c] and states the
    properties of the specification over that embedding.

    Conventions of the embedding.
    - [char] is the signed 8-bit type of the platforms the program is
      written for (its loop test [(c = fgetc(file)) != EOF] can only end
      with a signed [char]); [size_t] is 64 bits wide; both conversions
      are written out ([to_char], [to_size_t]).
    - The character classes are those of the "C" locale, the only one in
      force since the program never calls [setlocale]; on the negative
      [char] values other than [EOF] they answer false.
    - Memory blocks are lists of slots.  A store outside a block has no
      defined behaviour in C; here it ends the run with a [Fault] that
      records the offending index.
    - [malloc] and [strdup] are taken to return the block that was asked
      for, and so is [realloc] for a request of at least one byte.  For a
      request of 0 bytes [malloc] returns a block with no slot and
      [realloc] releases the old block and returns a null pointer, as
      glibc does; [add_token] tests for it and ends the process.
    - The loop of [lex] is given fuel; [OutOfFuel] is the answer of a loop
      that has not ended within it, and [lex] never gives that answer
      ([lex_file_terminates]).
    [free_token_list] only releases memory, which the embedding does not
    hold: it is left out, also where [main] calls it. *)

From stdpp Require Import base list strings pretty.
From Stdlib Require Import ZArith Lia Ascii.

Local Open Scope string_scope.
Local Open Scope list_scope.
Local Open Scope Z_scope.

(** ** Executions that may leave the defined behaviour of C, or end the
    process *)

Inductive fault : Type :=
  | ScratchOutOfBounds (index : Z)  (* access to [buffer] outside [0, 256) *)
  | TokensOutOfBounds (index : Z).  (* store to [list->tokens] outside the block *)

(** [Exit status message]: the callee has ended the process, by
    [perror(message)] followed by [exit(status)]. *)
Inductive exec (A : Type) : Type :=
  | Ok (a : A)
  | Fault (f : fault)
  | Exit (status : Z) (message : string)
  | OutOfFuel.
Arguments Ok {A} a.
Arguments Fault {A} f.
Arguments Exit {A} status message.
Arguments OutOfFuel {A}.

#[export] Instance exec_ret : MRet exec := fun A a => Ok a.

#[export] Instance exec_bind : MBind exec := fun A B k m =>
  match m with
  | Ok a => k a
  | Fault f => Fault f
  | Exit status message => Exit status message
  | OutOfFuel => OutOfFuel
  end.

Definition EXIT_FAILURE : Z := 1.

(** ** Characters and the <ctype.h> classes *)

Definition EOF : Z := -1.

(** The value [fgetc] returns for a byte: an [unsigned char] as an [int]. *)
Definition byte_of_ascii (a : ascii) : Z := Z.of_N (N_of_ascii a).

(** Conversion of an [int] to the signed 8-bit [char]. *)
Definition to_char (i : Z) : Z := (i + 128) mod 256 - 128.

(** Conversion of an [int] to [unsigned char]. *)
Definition to_uchar (i : Z) : Z := i mod 256.

Definition ascii_of_char (c : Z) : ascii := ascii_of_N (Z.to_N (to_uchar c)).

Definition char_of_ascii (a : ascii) : Z := to_char (byte_of_ascii a).

Definition isdigit (c : Z) : bool := (48 <=? c) && (c <=? 57).

Definition isalpha (c : Z) : bool :=
  ((65 <=? c) && (c <=? 90)) || ((97 <=? c) && (c <=? 122)).

Definition isalnum (c : Z) : bool := isalpha c || isdigit c.

Definition isspace (c : Z) : bool := (c =? 32) || ((9 <=? c) && (c <=? 13)).

(** ** C strings *)

Fixpoint chars_of_string (s : string) : list Z :=
  match s with
  | EmptyString => []
  | String a s' => char_of_ascii a :: chars_of_string s'
  end.

Fixpoint string_of_chars (cs : list Z) : string :=
  match cs with
  | [] => EmptyString
  | c :: cs' => String (ascii_of_char c) (string_of_chars cs')
  end.

(** [strcmp] on the characters before the terminating NUL of each
    argument: the difference of the first two differing bytes, compared
    as [unsigned char]. *)
Fixpoint strcmp (a b : list Z) : Z :=
  match a, b with
  | [], [] => 0
  | [], y :: _ => 0 - to_uchar y
  | x :: _, [] => to_uchar x
  | x :: a', y :: b' =>
      if to_uchar x =? to_uchar y then strcmp a' b' else to_uchar x - to_uchar y
  end.

(** ** The stream *)

(** An open [FILE]: the bytes not yet read, next one first. *)
Definition FILE : Type := string.

Definition fgetc (file : FILE) : Z * FILE :=
  match file with
  | EmptyString => (EOF, EmptyString)
  | String a rest => (byte_of_ascii a, rest)
  end.

(** [ungetc(c, file)]: pushing [EOF] back fails and leaves the stream as
    it is; any other value is pushed back as an [unsigned char]. *)
Definition ungetc (c : Z) (file : FILE) : FILE :=
  if c =? EOF then file else String (ascii_of_char c) file.

(** ** Tokens and the token list *)

Inductive TokenType : Type :=
  | INT_KEYWORD
  | RETURN_KEYWORD
  | IDENTIFIER
  | L_PARAN
  | R_PARAN
  | L_BRACE
  | R_BRACE
  | INT_LITERAL
  | SEMICOLON
  | UNKNOWN.

Record Token : Type := mkToken { type : TokenType; value : string }.

(** [tokens] is the heap block the field points to, one entry per
    [Token]-sized slot, [None] for a slot never written. *)
Record TokenList : Type := mkTokenList {
  tokens : list (option Token);
  size : Z;
  capacity : Z
}.

Definition SIZE_WIDTH : Z := 64.
Definition to_size_t (n : Z) : Z := n mod 2 ^ SIZE_WIDTH.

(** [sizeof(Token)]: a 4-byte enum, padding, and an 8-byte pointer. *)
Definition sizeof_Token : Z := 16.

(** Number of whole [Token] slots in a block of [bytes] bytes. *)
Definition slots_of_bytes (bytes : Z) : nat := Z.to_nat (bytes / sizeof_Token).

Definition malloc_tokens (bytes : Z) : list (option Token) :=
  replicate (slots_of_bytes bytes) None.

(** [realloc(old, bytes)].  A request of 0 bytes releases [old] and
    returns the null pointer, [None]; any other request returns a block
    that keeps the contents up to the smaller of the two sizes. *)
Definition realloc_tokens (old : list (option Token)) (bytes : Z)
  : option (list (option Token)) :=
  if bytes =? 0 then None
  else Some (take (slots_of_bytes bytes)
               (old ++ replicate (slots_of_bytes bytes) None)).

Definition create_token_list (init_capacity : Z) : TokenList :=
  {| tokens := malloc_tokens (to_size_t (sizeof_Token * init_capacity));
     size := 0;
     capacity := init_capacity |}.

(** The [if ((list -> size) >= (list -> capacity))] block of [add_token],
    with its test [if (!list -> tokens)] of what [realloc] returned. *)
Definition grow (list : TokenList) : exec TokenList :=
  if size list >=? capacity list then
    let capacity' := to_size_t (capacity list * 2) in
    match realloc_tokens (tokens list) (to_size_t (sizeof_Token * capacity')) with
    | Some tokens' =>
        Ok {| tokens := tokens'; size := size list; capacity := capacity' |}
    | None => Exit EXIT_FAILURE "ERROR: Failed to reallocate token list."
    end
  else Ok list.

(** [Token* token = &(list -> tokens[list -> size++]);] and the two
    assignments through [token]. *)
Definition store_token (list : TokenList) (tok : Token) : exec TokenList :=
  let i := size list in
  if (0 <=? i) && (i <? Z.of_nat (length (tokens list))) then
    Ok {| tokens := <[Z.to_nat i := Some tok]> (tokens list);
          size := to_size_t (i + 1);
          capacity := capacity list |}
  else Fault (TokensOutOfBounds i).

Definition add_token (list : TokenList) (ty : TokenType) (value : string)
  : exec TokenList :=
  list ← grow list;
  store_token list {| type := ty; value := value |}.

(** The tokens held by a list: slots [0 .. size-1], in order. *)
Definition token_seq (l : TokenList) : list Token :=
  omap id (take (Z.to_nat (size l)) (tokens l)).

(** ** The scanner *)

(** [char buffer[256]] is not initialised: its cells start with whatever
    the stack holds, given here by [stack]. *)
Definition uninitialised (stack : nat -> Z) (n : nat) : list Z :=
  (fun i => to_char (stack i)) <$> seq 0 n.

(** [buffer[i] = c] *)
Definition store (buffer : list Z) (i c : Z) : exec (list Z) :=
  if (0 <=? i) && (i <? Z.of_nat (length buffer)) then
    Ok (<[Z.to_nat i := c]> buffer)
  else Fault (ScratchOutOfBounds i).

(** The characters of the C string that starts at cell [i]: what [strcmp]
    and [strdup] read, up to the first NUL. *)
Fixpoint c_str_from (i : Z) (cells : list Z) : exec (list Z) :=
  match cells with
  | [] => Fault (ScratchOutOfBounds i)
  | c :: cells' =>
      if c =? 0 then Ok [] else text ← c_str_from (i + 1) cells'; Ok (c :: text)
  end.

Definition c_str (buffer : list Z) : exec (list Z) := c_str_from 0 buffer.

(** [for (size_t i = 0; i < sizeof(buffer); i++) buffer[i] = '\0';] *)
Definition zero_fill (buffer : list Z) : list Z :=
  foldl (fun b i => <[i := 0]> b) buffer (seq 0 (length buffer)).

(** [while (class(c = fgetc(file))) buffer[buffer_index++] = c;]
    for [class] one of [isalnum] and [isdigit], which both reject [EOF].
    The result is the value of [c], the stream, the buffer and
    [buffer_index] when the loop is left. *)
Fixpoint run_loop (class : Z -> bool) (file : FILE) (buffer : list Z)
    (buffer_index : Z) : exec (Z * FILE * list Z * Z) :=
  match file with
  | EmptyString => Ok (to_char EOF, EmptyString, buffer, buffer_index)
  | String a rest =>
      let c := to_char (byte_of_ascii a) in
      if class c then
        buffer' ← store buffer buffer_index c;
        run_loop class rest buffer' (buffer_index + 1)
      else Ok (c, rest, buffer, buffer_index)
  end.

(** The local variables of [lex] that live across iterations.
    [token_list] is the local [tokens]: that name is taken by the field of
    [TokenList]. *)
Record frame : Type := mkFrame {
  file : FILE;
  token_list : TokenList;
  buffer : list Z;
  buffer_index : Z
}.

(** Lines 220-226: the comparisons of the completed run with the two
    keywords and the token they select. *)
Definition classify (tokens : TokenList) (buffer : list Z) : exec TokenList :=
  text ← c_str buffer;
  if strcmp text (chars_of_string "int") =? 0 then
    add_token tokens INT_KEYWORD "int"
  else if strcmp text (chars_of_string "return") =? 0 then
    add_token tokens RETURN_KEYWORD "return"
  else add_token tokens IDENTIFIER (string_of_chars text).

(** One evaluation of the loop test [(c = fgetc(file)) != EOF] followed,
    when it holds, by the loop body.  [None]: the loop is left. *)
Definition scan_step (st : frame) : exec (option frame) :=
  let '(r, file) := fgetc (file st) in
  let c := to_char r in
  if c =? EOF then Ok None
  else if isspace c then
    Ok (Some {| file := file; token_list := token_list st;
                buffer := buffer st; buffer_index := buffer_index st |})
  else if isalpha c then
    buffer ← store (buffer st) (buffer_index st) c;
    '(c, file, buffer, buffer_index) ←
      run_loop isalnum file buffer (buffer_index st + 1);
    buffer ← store buffer buffer_index 0;
    (* //ungetc(c, file); *)
    tokens ← classify (token_list st) buffer;
    Ok (Some {| file := file; token_list := tokens;
                buffer := zero_fill buffer; buffer_index := 0 |})
  else if isdigit c then
    buffer ← store (buffer st) (buffer_index st) c;
    '(c, file, buffer, buffer_index) ←
      run_loop isdigit file buffer (buffer_index st + 1);
    buffer ← store buffer buffer_index 0;
    let file := ungetc c file in
    text ← c_str buffer;
    tokens ← add_token (token_list st) INT_LITERAL (string_of_chars text);
    Ok (Some {| file := file; token_list := tokens;
                buffer := zero_fill buffer; buffer_index := 0 |})
  else
    let punctuation ty text :=
      tokens ← add_token (token_list st) ty text;
      Ok (Some {| file := file; token_list := tokens;
                  buffer := buffer st; buffer_index := buffer_index st |}) in
    if c =? 40 then punctuation L_PARAN "("
    else if c =? 41 then punctuation R_PARAN ")"
    else if c =? 123 then punctuation L_BRACE "{"
    else if c =? 125 then punctuation R_BRACE "}"
    else if c =? 59 then punctuation SEMICOLON ";"
    else
      buffer ← store (buffer st) 0 c;
      buffer ← store buffer 1 0;
      text ← c_str buffer;
      tokens ← add_token (token_list st) UNKNOWN (string_of_chars text);
      Ok (Some {| file := file; token_list := tokens;
                  buffer := buffer; buffer_index := buffer_index st |}).

(** The [while] loop of [lex]; [fuel] bounds the number of iterations. *)
Fixpoint lex_loop (fuel : nat) (st : frame) : exec TokenList :=
  match fuel with
  | O => OutOfFuel
  | S fuel' =>
      next ← scan_step st;
      match next with
      | None => Ok (token_list st)
      | Some st' => lex_loop fuel' st'
      end
  end.

(** [lex] from the point where [fopen] has succeeded.  Every iteration
    but the last reads at least one byte, so one more than the number of
    bytes is fuel enough ([lex_file_terminates]). *)
Definition lex_file (stack : nat -> Z) (file : FILE) : exec TokenList :=
  lex_loop (S (String.length file))
    {| file := file; token_list := create_token_list 10;
       buffer := uninitialised stack 256; buffer_index := 0 |}.

(** The files that can be opened, by name, with their contents. *)
Definition filesystem : Type := string -> option string.

Definition fopen (fs : filesystem) (filename : string) : option FILE :=
  fs filename.

Definition NULL : option TokenList := None.

Definition lex (stack : nat -> Z) (fs : filesystem) (filename : string)
  : exec (option TokenList) :=
  match fopen fs filename with
  | None => Ok NULL
  | Some file => tokens ← lex_file stack file; Ok (Some tokens)
  end.

(** The token sequence [lex] hands back for a file with contents [source]. *)
Definition scan (stack : nat -> Z) (source : string) : exec (list Token) :=
  tokens ← lex_file stack source; Ok (token_seq tokens).

(** ** The claims' vocabulary *)

(** The values of the type [char]. *)
Definition is_char (c : Z) : Prop := -128 <= c <= 127.

(** The characters a C string is made of: every [char] but NUL. *)
Definition text_char (c : Z) : Prop := is_char c /\ c <> 0.

(** [all_chars p s]: every byte of [s], read into a [char], satisfies [p]. *)
Fixpoint all_chars (p : Z -> bool) (s : string) : bool :=
  match s with
  | EmptyString => true
  | String a s' => p (char_of_ascii a) && all_chars p s'
  end.

(** [starts_with p s]: [s] has a first byte and it satisfies [p]. *)
Definition starts_with (p : Z -> bool) (s : string) : bool :=
  match s with
  | EmptyString => false
  | String a _ => p (char_of_ascii a)
  end.

(** An alphabetic run: an alphabetic character followed by alphanumeric
    ones. *)
Definition alphabetic_run (s : string) : bool :=
  match s with
  | EmptyString => false
  | String a s' => isalpha (char_of_ascii a) && all_chars isalnum s'
  end.

(** A digit run: one or more digits. *)
Definition digit_run (s : string) : bool :=
  match s with
  | EmptyString => false
  | String a s' => isdigit (char_of_ascii a) && all_chars isdigit s'
  end.

(** The longest prefix of [s] made of [class] characters, and what
    follows it. *)
Fixpoint run_of (class : Z -> bool) (s : string) : string :=
  match s with
  | EmptyString => EmptyString
  | String a s' =>
      if class (char_of_ascii a) then String a (run_of class s') else EmptyString
  end.

Fixpoint after_run (class : Z -> bool) (s : string) : string :=
  match s with
  | EmptyString => EmptyString
  | String a s' => if class (char_of_ascii a) then after_run class s' else s
  end.

(** [holds l toks]: [l] stores exactly the tokens [toks], in a block of
    [capacity l] slots whose size in bytes is a [size_t]. *)
Definition holds (l : TokenList) (toks : list Token) : Prop :=
  tokens l = (Some <$> toks) ++ replicate (Z.to_nat (capacity l) - length toks) None
  /\ size l = Z.of_nat (length toks)
  /\ size l <= capacity l
  /\ sizeof_Token * capacity l < 2 ^ SIZE_WIDTH.

(** [room l]: an append to [l] either finds a free slot or can double the
    block without leaving the range of [size_t]. *)
Definition room (l : TokenList) : Prop :=
  size l < capacity l
  \/ (1 <= capacity l /\ sizeof_Token * (2 * capacity l) < 2 ^ SIZE_WIDTH).

(** The comparison the claims speak of: the kind a completed run gets by
    exact comparison of its text with the two keywords. *)
Definition kind_of_run (run : string) : TokenType :=
  if bool_decide (run = "int") then INT_KEYWORD
  else if bool_decide (run = "return") then RETURN_KEYWORD
  else IDENTIFIER.

(** The stream after [c = fgetc(file)] followed by [ungetc(c, file)],
    started with the unread bytes [s]. *)
Definition after_pushback (s : string) : FILE :=
  ungetc (to_char (fgetc s).1) (fgetc s).2.

(** The token of a punctuation character, as the [switch] has it. *)
Definition punctuation_token (c : Z) : option Token :=
  if c =? 40 then Some {| type := L_PARAN; value := "(" |}
  else if c =? 41 then Some {| type := R_PARAN; value := ")" |}
  else if c =? 123 then Some {| type := L_BRACE; value := "{" |}
  else if c =? 125 then Some {| type := R_BRACE; value := "}" |}
  else if c =? 59 then Some {| type := SEMICOLON; value := ";" |}
  else None.

(** [runs_within limit count s]: when [count] alphanumeric characters come
    just before [s], no stretch of consecutive alphanumeric characters
    that reaches into [s] is longer than [limit]. *)
Fixpoint runs_within (limit count : nat) (s : string) : bool :=
  match s with
  | EmptyString => true
  | String a s' =>
      if isalnum (char_of_ascii a)
      then (count <? limit)%nat && runs_within limit (S count) s'
      else runs_within limit 0 s'
  end.

(** Every run of the source leaves room for its terminating NUL in the
    256 cells. *)
Definition runs_fit (source : string) : bool := runs_within 255 0 source.

(** What one iteration can come to when the runs fit: the loop is left,
    or a character is skipped, or one token is appended; in the last two
    cases the stream is shorter and the scratch buffer is ready again. *)
Inductive step_outcome (st : frame) : exec (option frame) -> Prop :=
  | step_leave : step_outcome st (Ok None)
  | step_skip rest :
      (String.length rest < String.length (file st))%nat ->
      runs_fit rest = true ->
      step_outcome st
        (Ok (Some {| file := rest; token_list := token_list st;
                     buffer := buffer st; buffer_index := buffer_index st |}))
  | step_token ty text rest buf :
      (String.length rest < String.length (file st))%nat ->
      runs_fit rest = true ->
      length buf = length (buffer st) ->
      step_outcome st
        (tokens ← add_token (token_list st) ty text;
         Ok (Some {| file := rest; token_list := tokens;
                     buffer := buf; buffer_index := buffer_index st |})).

(** [k] appends in a row, of the tokens [items]. *)
Fixpoint add_tokens (l : TokenList) (items : list Token) : exec TokenList :=
  match items with
  | [] => Ok l
  | t :: items' => l' ← add_token l (type t) (value t); add_tokens l' items'
  end.

(** [cap] is the smallest value of the form [c * 2^i] that is at least [k]. *)
Definition smallest_doubling (c k cap : Z) : Prop :=
  exists i : nat,
    cap = c * 2 ^ Z.of_nat i
    /\ k <= cap
    /\ forall j : nat, k <= c * 2 ^ Z.of_nat j -> cap <= c * 2 ^ Z.of_nat j.

#[export] Instance TokenType_eq_dec : EqDecision TokenType.
Proof. solve_decision. Defined.

(** [n] copies of a byte. *)
Fixpoint copies (n : nat) (a : ascii) : string :=
  match n with
  | O => EmptyString
  | S n' => String a (copies n' a)
  end.

(** A file system with one file. *)
Definition single_file (name contents : string) : filesystem :=
  fun filename => if bool_decide (filename = name) then Some contents else None.

(** The locals of [lex] when its loop starts on [source], with a zeroed
    scratch buffer: a state to try single iterations on. *)
Definition first_frame (source : string) : frame :=
  {| file := source; token_list := create_token_list 10;
     buffer := replicate 256 0; buffer_index := 0 |}.

(** ** Printing and the entry point *)

(** The values of the enumeration [TokenType], as [%d] prints them. *)
Definition enum_value (ty : TokenType) : Z :=
  match ty with
  | INT_KEYWORD => 0
  | RETURN_KEYWORD => 1
  | IDENTIFIER => 2
  | L_PARAN => 3
  | R_PARAN => 4
  | L_BRACE => 5
  | R_BRACE => 6
  | INT_LITERAL => 7
  | SEMICOLON => 8
  | UNKNOWN => 9
  end.

Definition newline : string := String "010" "".

(** What [printf("Type: %d, Value: %s\n", type, value)] writes. *)
Definition token_line (t : Token) : string :=
  "Type: " +:+ pretty (enum_value (type t)) +:+ ", Value: " +:+ value t
  +:+ newline.

(** The iterations [i, i+1, ...], [n] of them, of the loop of
    [print_tokens]; the result is the text written to the standard
    output.  A slot that holds no token, outside the block or never
    written, cannot be printed: the access is reported as a fault at its
    index. *)
Fixpoint print_from (l : TokenList) (i n : nat) : exec string :=
  match n with
  | O => Ok ""
  | S n' =>
      match tokens l !! i with
      | Some (Some t) => out ← print_from l (S i) n'; Ok (token_line t +:+ out)
      | _ => Fault (TokensOutOfBounds (Z.of_nat i))
      end
  end.

(** [for (size_t i = 0; i < (list -> size); i++) printf(...)] *)
Definition print_tokens (l : TokenList) : exec string :=
  print_from l 0 (Z.to_nat (size l)).

(** How the process ends: its exit status, what it wrote to the standard
    output, and the messages it gave to [perror], in order. *)
Record process : Type := mkProcess {
  status : Z;
  stdout : string;
  stderr : list string
}.

(** The message [lex] gives to [perror] before it returns [NULL]. *)
Definition lex_perror (fs : filesystem) (filename : string) : list string :=
  match fopen fs filename with
  | None => ["ERROR: Failed to open file. File may not exist."]
  | Some _ => []
  end.

(** [main]; [argv] holds the [argc] arguments, the program's name first.
    [exit(EXIT_FAILURE)] and [return 0] both end the process, with the
    status they give.  When [add_token] ends the process inside [lex],
    that [Exit] is the outcome of [main] as well. *)
Definition main (stack : nat -> Z) (fs : filesystem) (argv : list string)
  : exec process :=
  match argv with
  | _ :: filename :: _ =>
      tokens ← lex stack fs filename;
      match tokens with
      | Some tokens =>
          out ← print_tokens tokens;
          (* free_token_list(tokens); *)
          Ok {| status := 0; stdout := out; stderr := lex_perror fs filename |}
      | None =>
          Ok {| status := EXIT_FAILURE; stdout := "";
                stderr := lex_perror fs filename ++ ["ERROR: Lexing file."] |}
      end
  | _ =>
      (* argc < 2 *)
      Ok {| status := EXIT_FAILURE; stdout := "";
            stderr := ["ERROR: File not provided."] |}
  end.

(** ** Vocabulary of the further properties *)

(** The lexical form of a token: what its text is, by its kind. *)
Definition lexeme (t : Token) : bool :=
  match type t with
  | INT_KEYWORD => bool_decide (value t = "int")
  | RETURN_KEYWORD => bool_decide (value t = "return")
  | IDENTIFIER =>
      alphabetic_run (value t) && (String.length (value t) <=? 255)%nat
      && negb (bool_decide (value t = "int"))
      && negb (bool_decide (value t = "return"))
  | INT_LITERAL => digit_run (value t) && (String.length (value t) <=? 255)%nat
  | L_PARAN => bool_decide (value t = "(")
  | R_PARAN => bool_decide (value t = ")")
  | L_BRACE => bool_decide (value t = "{")
  | R_BRACE => bool_decide (value t = "}")
  | SEMICOLON => bool_decide (value t = ";")
  | UNKNOWN =>
      match value t with
      | EmptyString => true
      | String a EmptyString =>
          negb (char_of_ascii a =? EOF) && negb (isspace (char_of_ascii a))
          && negb (isalnum (char_of_ascii a))
          && bool_decide (punctuation_token (char_of_ascii a) = None)
      | _ => false
      end
  end.

(** The five punctuation characters with their kinds. *)
Definition punctuation : list (ascii * TokenType) :=
  [("("%char, L_PARAN); (")"%char, R_PARAN); ("{"%char, L_BRACE);
   ("}"%char, R_BRACE); (";"%char, SEMICOLON)].

(** Two states of the loop that differ in the contents of the scratch
    buffer at most. *)
Definition same_but_buffer (st1 st2 : frame) : Prop :=
  file st1 = file st2 /\ token_list st1 = token_list st2
  /\ buffer_index st1 = 0 /\ buffer_index st2 = 0
  /\ length (buffer st1) = 256%nat /\ length (buffer st2) = 256%nat.

(** The text printed for a sequence of tokens, a line each. *)
Fixpoint token_lines (toks : list Token) : string :=
  match toks with
  | [] => ""
  | t :: toks' => token_line t +:+ token_lines toks'
  end.

(** Number of occurrences of a byte in a text. *)
Fixpoint count_byte (a : ascii) (s : string) : nat :=
  match s with
  | EmptyString => 0
  | String b s' => (if Ascii.eqb a b then 1 else 0) + count_byte a s'
  end.

(* ================================================================= *)
(** * Facts about characters and C strings *)

Lemma byte_of_ascii_range a : 0 <= byte_of_ascii a < 256.
Proof.
  unfold byte_of_ascii.
  pose proof (N_ascii_bounded a) as H. lia.
Qed.

Lemma to_uchar_to_char i : to_uchar (to_char i) = i mod 256.
Proof.
  unfold to_uchar, to_char.
  rewrite Zminus_mod, Zmod_mod, <- Zminus_mod.
  f_equal. lia.
Qed.

Lemma to_char_range i : -128 <= to_char i <= 127.
Proof. unfold to_char. pose proof (Z.mod_pos_bound (i + 128) 256). lia. Qed.

Lemma ascii_of_char_of_ascii a : ascii_of_char (char_of_ascii a) = a.
Proof.
  unfold ascii_of_char, char_of_ascii.
  rewrite to_uchar_to_char, Z.mod_small by apply byte_of_ascii_range.
  unfold byte_of_ascii. rewrite N2Z.id. apply ascii_N_embedding.
Qed.

Lemma string_of_chars_of_string s : string_of_chars (chars_of_string s) = s.
Proof.
  induction s as [|a s IH]; simpl; [done|].
  by rewrite ascii_of_char_of_ascii, IH.
Qed.

Lemma to_uchar_range c : 0 <= to_uchar c < 256.
Proof. apply Z.mod_pos_bound. lia. Qed.

Lemma to_uchar_inj c d : is_char c -> is_char d -> to_uchar c = to_uchar d -> c = d.
Proof. unfold is_char, to_uchar. intros Hc Hd H. Z.to_euclidean_division_equations. lia. Qed.

Lemma to_uchar_text c : text_char c -> to_uchar c <> 0.
Proof. unfold text_char, is_char, to_uchar. intros [Hc H0]. Z.to_euclidean_division_equations. lia. Qed.

Lemma to_char_to_uchar c : is_char c -> to_char (to_uchar c) = c.
Proof. unfold is_char, to_char, to_uchar. intros Hc. Z.to_euclidean_division_equations. lia. Qed.

Lemma char_of_ascii_is_char a : is_char (char_of_ascii a).
Proof. apply to_char_range. Qed.

Lemma char_of_ascii_of_char c : is_char c -> char_of_ascii (ascii_of_char c) = c.
Proof.
  intros Hc. unfold char_of_ascii, ascii_of_char, byte_of_ascii.
  pose proof (to_uchar_range c).
  rewrite N_ascii_embedding by lia.
  rewrite Z2N.id by lia. by apply to_char_to_uchar.
Qed.

Lemma chars_of_string_of_chars cs :
  Forall is_char cs -> chars_of_string (string_of_chars cs) = cs.
Proof.
  induction 1 as [|c cs Hc _ IH]; simpl; [done|].
  by rewrite char_of_ascii_of_char, IH.
Qed.

Lemma chars_of_string_is_char s : Forall is_char (chars_of_string s).
Proof. induction s; simpl; constructor; auto using char_of_ascii_is_char. Qed.

(** [strcmp] answers 0 exactly on equal strings. *)
Lemma strcmp_0_iff a b :
  Forall text_char a -> Forall text_char b -> strcmp a b = 0 <-> a = b.
Proof.
  intros Ha. revert b.
  induction Ha as [|x a Hx Ha IH]; intros b Hb; destruct Hb as [|y b Hy Hb]; simpl.
  - done.
  - pose proof (to_uchar_text y Hy). split; [lia|done].
  - pose proof (to_uchar_text x Hx). split; [lia|done].
  - destruct (Z.eqb_spec (to_uchar x) (to_uchar y)) as [E|E].
    + apply to_uchar_inj in E; [|apply Hx|apply Hy]. subst y.
      rewrite IH by done. split; [by intros ->|by intros [= ->]].
    + split; [lia|]. intros [= -> _]. done.
Qed.

Lemma strcmp_keyword text kw :
  Forall text_char text -> Forall text_char (chars_of_string kw) ->
  (strcmp text (chars_of_string kw) =? 0) = bool_decide (string_of_chars text = kw).
Proof.
  intros Ht Hk.
  destruct (Z.eqb_spec (strcmp text (chars_of_string kw)) 0) as [E|E].
  - apply strcmp_0_iff in E; [|done..]. subst text.
    by rewrite string_of_chars_of_string, bool_decide_eq_true_2.
  - rewrite bool_decide_eq_false_2; [done|]. intros <-. apply E.
    apply strcmp_0_iff; [done..|].
    rewrite chars_of_string_of_chars; [done|].
    eapply Forall_impl; [exact Ht|]. by intros ? [].
Qed.

(* ================================================================= *)
(** * Facts about the scratch buffer *)

Lemma store_in_bounds buffer (n : nat) c :
  (n < length buffer)%nat -> store buffer (Z.of_nat n) c = Ok (<[n := c]> buffer).
Proof.
  intros Hn. unfold store.
  rewrite Nat2Z.id.
  destruct (Z.leb_spec 0 (Z.of_nat n)); [|lia].
  destruct (Z.ltb_spec (Z.of_nat n) (Z.of_nat (length buffer))); [done|lia].
Qed.

Lemma store_out_of_bounds buffer i c :
  Z.of_nat (length buffer) <= i -> store buffer i c = Fault (ScratchOutOfBounds i).
Proof.
  intros Hi. unfold store.
  destruct (Z.ltb_spec i (Z.of_nat (length buffer))); [lia|].
  by rewrite andb_false_r.
Qed.

Lemma c_str_from_app i pre post :
  Forall (fun c => c <> 0) pre -> c_str_from i (pre ++ 0 :: post) = Ok pre.
Proof.
  intros H. revert i. induction H as [|c pre Hc _ IH]; intros i; simpl; [done|].
  destruct (Z.eqb_spec c 0); [done|]. by rewrite IH.
Qed.

Lemma zero_fill_prefix buffer (n : nat) :
  (n <= length buffer)%nat ->
  foldl (fun b i => <[i := 0]> b) buffer (seq 0 n) = replicate n 0 ++ drop n buffer.
Proof.
  induction n as [|n IH]; intros Hn; [done|].
  rewrite seq_S, foldl_app; simpl. rewrite IH by lia.
  destruct (lookup_lt_is_Some_2 buffer n) as [x Hx]; [lia|].
  rewrite (drop_S _ _ _ Hx).
  rewrite <- (Nat.add_0_r n) at 1.
  rewrite <- (length_replicate n 0) at 1.
  rewrite insert_app_r. simpl.
  by rewrite cons_middle, app_assoc, <- replicate_S_end.
Qed.

Lemma zero_fill_replicate buffer : zero_fill buffer = replicate (length buffer) 0.
Proof.
  unfold zero_fill. rewrite zero_fill_prefix by done.
  by rewrite drop_all, app_nil_r.
Qed.

Lemma run_of_after_run class s : run_of class s +:+ after_run class s = s.
Proof.
  induction s as [|a s IH]; cbn; [done|].
  destruct (class (char_of_ascii a)); [exact (f_equal (String a) IH)|reflexivity].
Qed.

Lemma length_chars_of_string s : length (chars_of_string s) = String.length s.
Proof. induction s; simpl; auto. Qed.

(** The inner loops, as long as the run fits: the run is copied to the
    cells from [buffer_index] on and the character that ends it has been
    read from the stream. *)
Lemma run_loop_fits class file buffer (n : nat) :
  (n + String.length (run_of class file) <= length buffer)%nat ->
  run_loop class file buffer (Z.of_nat n) =
  Ok (to_char (fgetc (after_run class file)).1,
      (fgetc (after_run class file)).2,
      take n buffer ++ chars_of_string (run_of class file)
        ++ drop (n + String.length (run_of class file)) buffer,
      Z.of_nat (n + String.length (run_of class file))).
Proof.
  revert buffer n. induction file as [|a rest IH]; intros buffer n Hn; simpl.
  - by rewrite Nat.add_0_r, take_drop.
  - simpl in Hn. fold (char_of_ascii a).
    destruct (class (char_of_ascii a)) eqn:Hc; simpl in *.
    + rewrite store_in_bounds by lia. simpl.
      replace (Z.of_nat n + 1) with (Z.of_nat (S n)) by lia.
      rewrite IH by (rewrite length_insert; lia).
      destruct (lookup_lt_is_Some_2 buffer n) as [x Hx]; [lia|].
      rewrite (take_S_r _ _ (char_of_ascii a))
        by (apply list_lookup_insert_eq; lia).
      rewrite take_insert_ge by lia.
      rewrite drop_insert_lt by lia.
      rewrite <- app_assoc. simpl.
      repeat f_equal; lia.
    + by rewrite Nat.add_0_r, take_drop.
Qed.

(** The loop written with [fgetc], as the source has it. *)
Lemma run_loop_fgetc class file buffer buffer_index :
  class (to_char EOF) = false ->
  run_loop class file buffer buffer_index =
  let '(r, file') := fgetc file in
  let c := to_char r in
  if class c then
    buffer' ← store buffer buffer_index c;
    run_loop class file' buffer' (buffer_index + 1)
  else Ok (c, file', buffer, buffer_index).
Proof. intros H. destruct file; simpl; [by rewrite H|done]. Qed.

Lemma all_chars_run_of class s : all_chars class (run_of class s) = true.
Proof.
  induction s as [|a s IH]; simpl; [done|].
  destruct (class (char_of_ascii a)) eqn:E; simpl; [by rewrite E|done].
Qed.

Lemma all_chars_Forall (class : Z -> bool) s :
  all_chars class s = true -> Forall (fun c => class c = true) (chars_of_string s).
Proof.
  induction s as [|a s IH]; simpl; [constructor|].
  intros [H1 H2]%andb_prop. constructor; auto.
Qed.

Lemma all_chars_weaken (p q : Z -> bool) s :
  (forall c, p c = true -> q c = true) -> all_chars p s = true -> all_chars q s = true.
Proof.
  intros Hpq. induction s as [|a s IH]; simpl; [done|].
  intros [H1 H2]%andb_prop. by rewrite (Hpq _ H1), IH.
Qed.

(** The whitespace of the "C" locale: space, and the five controls from
    horizontal tab to carriage return. *)
Lemma isspace_chars c :
  isspace c = true <-> c = 32 \/ c = 9 \/ c = 10 \/ c = 11 \/ c = 12 \/ c = 13.
Proof. unfold isspace. lia. Qed.

Lemma isalpha_isalnum c : isalpha c = true -> isalnum c = true.
Proof. unfold isalnum. by intros ->. Qed.

Lemma isdigit_isalnum c : isdigit c = true -> isalnum c = true.
Proof. unfold isalnum. intros ->. by rewrite orb_true_r. Qed.

Lemma isalnum_nonzero c : isalnum c = true -> c <> 0.
Proof. unfold isalnum, isalpha, isdigit. intros H ->. done. Qed.

Lemma isalnum_not_space c : isalnum c = true -> isspace c = false.
Proof. unfold isalnum, isalpha, isdigit, isspace. lia. Qed.

Lemma isalnum_not_EOF c : isalnum c = true -> (c =? EOF) = false.
Proof. unfold isalnum, isalpha, isdigit, EOF. lia. Qed.

Lemma isdigit_not_alpha c : isdigit c = true -> isalpha c = false.
Proof. unfold isalpha, isdigit. lia. Qed.

Lemma alnum_text s :
  all_chars isalnum s = true -> Forall text_char (chars_of_string s).
Proof.
  intros H. apply all_chars_Forall in H.
  pose proof (chars_of_string_is_char s) as Hc.
  rewrite Forall_forall in H, Hc. apply Forall_forall. intros c Hin. split; [by apply Hc|].
  apply isalnum_nonzero. by apply H.
Qed.

(* ================================================================= *)
(** * Facts about the token list *)

Lemma bind_Ok {A B} (a : A) (k : A -> exec B) : Ok a ≫= k = k a.
Proof. done. Qed.

Lemma to_size_t_small n : 0 <= n < 2 ^ SIZE_WIDTH -> to_size_t n = n.
Proof. intros H. unfold to_size_t. by apply Z.mod_small. Qed.

Lemma slots_of_bytes_mul n : 0 <= n -> slots_of_bytes (sizeof_Token * n) = Z.to_nat n.
Proof.
  intros H. unfold slots_of_bytes, sizeof_Token.
  by rewrite Z.mul_comm, Z.div_mul.
Qed.

Lemma create_token_list_holds c :
  0 <= c -> sizeof_Token * c < 2 ^ SIZE_WIDTH -> holds (create_token_list c) [].
Proof.
  intros H0 Hc. unfold holds, create_token_list, malloc_tokens; simpl.
  rewrite to_size_t_small by (unfold sizeof_Token in *; lia).
  rewrite slots_of_bytes_mul by done.
  rewrite Nat.sub_0_r. auto.
Qed.

Lemma token_seq_holds l toks : holds l toks -> token_seq l = toks.
Proof.
  intros (Ht & Hs & _). unfold token_seq. rewrite Ht, Hs, Nat2Z.id.
  rewrite <- (length_fmap Some toks) at 1.
  rewrite take_app_length.
  clear. induction toks as [|t toks IH]; [done|].
  change (omap id (Some <$> t :: toks)) with (t :: omap id (Some <$> toks)).
  by rewrite IH.
Qed.

Lemma store_token_free l toks (m : nat) tok :
  tokens l = (Some <$> toks) ++ replicate (S m) None ->
  size l = Z.of_nat (length toks) ->
  Z.of_nat (length toks) + 1 < 2 ^ SIZE_WIDTH ->
  store_token l tok =
  Ok {| tokens := (Some <$> (toks ++ [tok])) ++ replicate m None;
        size := Z.of_nat (length toks) + 1;
        capacity := capacity l |}.
Proof.
  intros Ht Hs Hlt. unfold store_token. rewrite Ht, Hs.
  rewrite length_app, length_fmap, length_replicate.
  destruct (Z.leb_spec 0 (Z.of_nat (length toks))); [|lia].
  destruct (Z.ltb_spec (Z.of_nat (length toks)) (Z.of_nat (length toks + S m)));
    [|lia].
  simpl. rewrite Nat2Z.id, to_size_t_small by lia.
  f_equal. f_equal.
  rewrite <- (Nat.add_0_r (length toks)) at 1.
  rewrite <- (length_fmap Some toks) at 1.
  rewrite insert_app_r. simpl.
  by rewrite fmap_app, <- app_assoc.
Qed.

Lemma grow_free l : size l < capacity l -> grow l = Ok l.
Proof.
  intros H. unfold grow.
  destruct (Z.geb_spec (size l) (capacity l)); [lia|done].
Qed.

Lemma grow_full l toks :
  holds l toks -> size l = capacity l -> 1 <= capacity l ->
  sizeof_Token * (2 * capacity l) < 2 ^ SIZE_WIDTH ->
  grow l = Ok {| tokens := (Some <$> toks) ++ replicate (Z.to_nat (capacity l)) None;
                 size := size l;
                 capacity := 2 * capacity l |}.
Proof.
  intros (Ht & Hs & Hle & Hb) Heq H1 Hb2. unfold grow.
  destruct (Z.geb_spec (size l) (capacity l)); [|lia].
  assert (Hcap : to_size_t (capacity l * 2) = 2 * capacity l).
  { rewrite to_size_t_small; unfold sizeof_Token in *; lia. }
  rewrite Hcap.
  rewrite to_size_t_small by (unfold sizeof_Token in *; lia).
  unfold realloc_tokens.
  destruct (Z.eqb_spec (sizeof_Token * (2 * capacity l)) 0) as [H0|_];
    [unfold sizeof_Token in H0; lia|].
  f_equal. f_equal.
  rewrite slots_of_bytes_mul by lia. rewrite Ht.
  replace (Z.to_nat (capacity l) - length toks)%nat with 0%nat by lia.
  simpl. rewrite app_nil_r.
  rewrite take_app, length_fmap.
  rewrite take_ge by (rewrite length_fmap; lia).
  rewrite take_replicate. f_equal. f_equal. lia.
Qed.

(** An append to a list with room stores the token after the ones held
    and doubles the capacity exactly when the list is full. *)
Lemma add_token_holds l toks ty v :
  holds l toks -> room l ->
  exists l',
    add_token l ty v = Ok l'
    /\ holds l' (toks ++ [{| type := ty; value := v |}])
    /\ capacity l' = (if size l =? capacity l then 2 * capacity l else capacity l).
Proof.
  intros Hh Hr. pose proof Hh as (Ht & Hs & Hle & Hb).
  unfold add_token.
  destruct (Z.eqb_spec (size l) (capacity l)) as [Heq|Hne].
  - destruct Hr as [Hr|[H1 Hb2]]; [lia|].
    rewrite (grow_full l toks), bind_Ok by done.
    assert (Hm : Z.to_nat (capacity l) = S (Z.to_nat (capacity l) - 1)) by lia.
    rewrite Hm.
    eexists. split.
    { apply store_token_free; simpl; [done|lia|].
      unfold sizeof_Token in *. lia. }
    simpl. split; [|done].
    unfold holds; simpl. rewrite length_app; simpl.
    repeat split; [|lia|lia|lia].
    f_equal. f_equal. lia.
  - rewrite grow_free, bind_Ok by lia.
    assert (Hm : (Z.to_nat (capacity l) - length toks)%nat
                 = S (Z.to_nat (capacity l) - length toks - 1)) by lia.
    rewrite Hm in Ht.
    eexists. split.
    { apply store_token_free; [exact Ht|done|]. unfold sizeof_Token in *. lia. }
    simpl. split; [|done].
    unfold holds; simpl. rewrite length_app; simpl.
    repeat split; [|lia|lia|lia].
    f_equal. f_equal. lia.
Qed.

(* ================================================================= *)
(** * One iteration of the scanning loop *)

Lemma terminate_run buffer cs :
  (length cs < length buffer)%nat ->
  <[length cs := 0]> (cs ++ drop (length cs) buffer)
  = cs ++ 0 :: drop (S (length cs)) buffer.
Proof.
  intros H.
  destruct (lookup_lt_is_Some_2 buffer (length cs)) as [x Hx]; [lia|].
  rewrite (drop_S _ _ _ Hx).
  rewrite <- (Nat.add_0_r (length cs)) at 1.
  by rewrite insert_app_r.
Qed.

Lemma keywords_text :
  Forall text_char (chars_of_string "int")
  /\ Forall text_char (chars_of_string "return").
Proof. split; repeat constructor; try done; vm_compute; congruence. Qed.

(** Lines 220-226 compare the text of the run with the keywords and append
    one token of the kind found. *)
Lemma classify_text tokens buffer cs :
  c_str buffer = Ok cs -> Forall text_char cs ->
  classify tokens buffer =
  add_token tokens (kind_of_run (string_of_chars cs)) (string_of_chars cs).
Proof.
  intros Hc Ht. unfold classify. rewrite Hc, bind_Ok.
  destruct keywords_text as [Hi Hr].
  rewrite !strcmp_keyword by done.
  unfold kind_of_run.
  repeat case_bool_decide; congruence.
Qed.

Lemma scan_step_eof st : file st = "" -> scan_step st = Ok None.
Proof. intros H. unfold scan_step. by rewrite H. Qed.

Lemma scan_step_space st a rest :
  file st = String a rest -> isspace (char_of_ascii a) = true ->
  scan_step st =
  Ok (Some {| file := rest; token_list := token_list st;
              buffer := buffer st; buffer_index := buffer_index st |}).
Proof.
  intros H Hs. unfold scan_step. rewrite H. simpl.
  fold (char_of_ascii a). rewrite Hs.
  destruct (Z.eqb_spec (char_of_ascii a) EOF) as [E|E]; [|done].
  rewrite E in Hs. done.
Qed.

(** The buffer once a run [c :: cs] has been copied to its start and
    terminated. *)
Lemma run_buffer buf c cs :
  (S (length cs) < length buf)%nat ->
  store (take 1 (<[0%nat := c]> buf) ++ cs ++ drop (S (length cs)) (<[0%nat := c]> buf))
        (Z.of_nat (S (length cs))) 0
  = Ok ((c :: cs) ++ 0 :: drop (S (S (length cs))) buf).
Proof.
  intros H.
  destruct buf as [|x buf]; [simpl in H; lia|].
  change (<[0%nat := c]> (x :: buf)) with (c :: buf).
  change (take 1 (c :: buf)) with [c].
  change (drop (S (length cs)) (c :: buf)) with (drop (S (length cs)) (x :: buf)).
  change ([c] ++ cs ++ drop (S (length cs)) (x :: buf))
    with ((c :: cs) ++ drop (length (c :: cs)) (x :: buf)).
  rewrite store_in_bounds.
  - change (S (length cs)) with (length (c :: cs)) at 1.
    by rewrite terminate_run.
  - rewrite length_app, length_drop. simpl in *. lia.
Qed.

Lemma run_buffer_length buf (c : Z) cs :
  (S (length cs) < length buf)%nat ->
  length ((c :: cs) ++ 0 :: drop (S (S (length cs))) buf) = length buf.
Proof. intros H. rewrite length_app; simpl. rewrite length_drop. lia. Qed.

Lemma run_buffer_c_str buf c cs :
  Forall text_char (c :: cs) ->
  c_str ((c :: cs) ++ 0 :: drop (S (S (length cs))) buf) = Ok (c :: cs).
Proof.
  intros H. apply c_str_from_app.
  eapply Forall_impl; [exact H|]. by intros ? [].
Qed.

Lemma scan_step_alpha st a rest :
  file st = String a rest -> isalpha (char_of_ascii a) = true ->
  buffer_index st = 0 -> length (buffer st) = 256%nat ->
  (String.length (run_of isalnum rest) < 255)%nat ->
  scan_step st =
  tokens ← add_token (token_list st)
             (kind_of_run (String a (run_of isalnum rest)))
             (String a (run_of isalnum rest));
  Ok (Some {| file := (fgetc (after_run isalnum rest)).2;
              token_list := tokens;
              buffer := replicate (length (buffer st)) 0;
              buffer_index := 0 |}).
Proof.
  destruct st as [f toks buf idx]; simpl. intros -> Ha -> Hlen Hrun.
  unfold scan_step; simpl. fold (char_of_ascii a).
  pose proof (isalpha_isalnum _ Ha) as Han.
  rewrite (isalnum_not_EOF _ Han), (isalnum_not_space _ Han), Ha.
  rewrite (store_in_bounds buf 0), bind_Ok by lia.
  change (0 + 1) with (Z.of_nat 1).
  rewrite run_loop_fits, bind_Ok by (rewrite length_insert; lia).
  cbv beta iota. change (1 + ?n)%nat with (S n).
  rewrite <- length_chars_of_string.
  rewrite run_buffer, bind_Ok by (rewrite length_chars_of_string; lia).
  assert (Ht : Forall text_char (chars_of_string (String a (run_of isalnum rest)))).
  { apply alnum_text. simpl. by rewrite Han, all_chars_run_of. }
  rewrite (classify_text _ _ (chars_of_string (String a (run_of isalnum rest))));
    [|by apply run_buffer_c_str|done].
  rewrite string_of_chars_of_string.
  rewrite zero_fill_replicate, run_buffer_length
    by (rewrite length_chars_of_string; lia).
  done.
Qed.

Lemma digit_text s :
  all_chars isdigit s = true -> Forall text_char (chars_of_string s).
Proof.
  intros H. apply alnum_text.
  eapply all_chars_weaken; [|exact H]. apply isdigit_isalnum.
Qed.

Lemma scan_step_digit st a rest :
  file st = String a rest -> isdigit (char_of_ascii a) = true ->
  buffer_index st = 0 -> length (buffer st) = 256%nat ->
  (String.length (run_of isdigit rest) < 255)%nat ->
  scan_step st =
  tokens ← add_token (token_list st) INT_LITERAL (String a (run_of isdigit rest));
  Ok (Some {| file := after_pushback (after_run isdigit rest);
              token_list := tokens;
              buffer := replicate (length (buffer st)) 0;
              buffer_index := 0 |}).
Proof.
  destruct st as [f toks buf idx]; simpl. intros -> Hd -> Hlen Hrun.
  unfold scan_step; simpl. fold (char_of_ascii a).
  pose proof (isdigit_isalnum _ Hd) as Han.
  rewrite (isalnum_not_EOF _ Han), (isalnum_not_space _ Han),
    (isdigit_not_alpha _ Hd), Hd.
  rewrite (store_in_bounds buf 0), bind_Ok by lia.
  change (0 + 1) with (Z.of_nat 1).
  rewrite run_loop_fits, bind_Ok by (rewrite length_insert; lia).
  cbv beta iota. change (1 + ?n)%nat with (S n).
  rewrite <- length_chars_of_string.
  rewrite run_buffer, bind_Ok by (rewrite length_chars_of_string; lia).
  assert (Ht : Forall text_char (chars_of_string (String a (run_of isdigit rest)))).
  { apply digit_text. simpl. by rewrite Hd, all_chars_run_of. }
  change (chars_of_string (String a (run_of isdigit rest)))
    with (char_of_ascii a :: chars_of_string (run_of isdigit rest)) in Ht.
  rewrite (run_buffer_c_str _ _ _ Ht), bind_Ok.
  rewrite zero_fill_replicate, run_buffer_length
    by (rewrite length_chars_of_string; lia).
  change (char_of_ascii a :: chars_of_string (run_of isdigit rest))
    with (chars_of_string (String a (run_of isdigit rest))).
  by rewrite string_of_chars_of_string.
Qed.

Lemma after_pushback_id s :
  starts_with (fun c => c =? EOF) s = false -> after_pushback s = s.
Proof.
  destruct s as [|a s]; simpl; [done|].
  intros H. unfold after_pushback, ungetc; simpl.
  fold (char_of_ascii a). rewrite H. by rewrite ascii_of_char_of_ascii.
Qed.

Lemma after_pushback_length s :
  (String.length (after_pushback s) <= String.length s)%nat.
Proof.
  destruct s as [|a s]; simpl; [done|].
  unfold after_pushback, ungetc; simpl.
  destruct (_ =? EOF); simpl; lia.
Qed.

Lemma punctuation_not_alnum c tok :
  punctuation_token c = Some tok ->
  (c =? EOF) = false /\ isspace c = false /\ isalpha c = false /\ isdigit c = false.
Proof.
  unfold punctuation_token.
  intros H.
  assert (Hc : c = 40 \/ c = 41 \/ c = 123 \/ c = 125 \/ c = 59).
  { repeat match type of H with
           | context [?x =? ?y] => destruct (Z.eqb_spec x y); [lia|]
           end.
    discriminate. }
  by destruct Hc as [->|[->|[->|[->| ->]]]].
Qed.

Lemma scan_step_punctuation st a rest tok :
  file st = String a rest -> punctuation_token (char_of_ascii a) = Some tok ->
  scan_step st =
  tokens ← add_token (token_list st) (type tok) (value tok);
  Ok (Some {| file := rest; token_list := tokens;
              buffer := buffer st; buffer_index := buffer_index st |}).
Proof.
  intros Hf Hp. unfold scan_step. rewrite Hf. simpl. fold (char_of_ascii a).
  destruct (punctuation_not_alnum _ _ Hp) as (-> & -> & -> & ->).
  unfold punctuation_token in Hp.
  repeat match type of Hp with
         | context [?x =? ?y] =>
             destruct (x =? y); [by injection Hp as <-|]
         end.
  discriminate.
Qed.

(** The text of the token made from an unrecognised character: the
    character itself, unless it is NUL, which ends the string at once. *)
Lemma scan_step_unknown st a rest :
  file st = String a rest ->
  (char_of_ascii a =? EOF) = false -> isspace (char_of_ascii a) = false ->
  isalnum (char_of_ascii a) = false -> punctuation_token (char_of_ascii a) = None ->
  (2 <= length (buffer st))%nat ->
  scan_step st =
  tokens ← add_token (token_list st) UNKNOWN
             (if char_of_ascii a =? 0 then "" else String a "");
  Ok (Some {| file := rest; token_list := tokens;
              buffer := <[1%nat := 0]> (<[0%nat := char_of_ascii a]> (buffer st));
              buffer_index := buffer_index st |}).
Proof.
  intros Hf He Hs Han Hp Hlen. unfold scan_step. rewrite Hf. simpl.
  fold (char_of_ascii a). rewrite He, Hs.
  apply orb_false_elim in Han as [-> ->].
  unfold punctuation_token in Hp.
  repeat match type of Hp with
         | context [?x =? ?y] => destruct (x =? y); [discriminate|]
         end.
  rewrite (store_in_bounds _ 0), bind_Ok by lia.
  rewrite (store_in_bounds _ 1), bind_Ok by (rewrite length_insert; lia).
  destruct (buffer st) as [|x [|y buf]]; simpl in Hlen; [lia..|].
  simpl.
  unfold c_str. simpl.
  destruct (char_of_ascii a =? 0); simpl; [done|].
  by rewrite ascii_of_char_of_ascii.
Qed.

(* ================================================================= *)
(** * The whole loop *)

Lemma runs_within_mono limit count count' s :
  (count' <= count)%nat ->
  runs_within limit count s = true -> runs_within limit count' s = true.
Proof.
  revert count count'. induction s as [|a s IH]; intros count count' Hle; simpl; [done|].
  destruct (isalnum (char_of_ascii a)); [|done].
  intros [H1 H2]%andb_prop. apply andb_true_intro. split.
  - apply Nat.ltb_lt. apply Nat.ltb_lt in H1. lia.
  - apply (IH (S count)); [lia|done].
Qed.

Lemma runs_within_tail limit count a s :
  runs_within limit count (String a s) = true -> runs_within limit 0 s = true.
Proof.
  simpl. destruct (isalnum (char_of_ascii a)); [|done].
  intros [_ H]%andb_prop. apply (runs_within_mono _ (S count)); [lia|done].
Qed.

Lemma runs_within_run_of class limit count s :
  (forall c, class c = true -> isalnum c = true) ->
  (count <= limit)%nat ->
  runs_within limit count s = true ->
  (count + String.length (run_of class s) <= limit)%nat
  /\ runs_within limit 0 (after_run class s) = true.
Proof.
  intros Hcl. revert count. induction s as [|a s IH]; intros count Hle Hr.
  - simpl. split; [lia|done].
  - cbn [run_of after_run].
    destruct (class (char_of_ascii a)) eqn:Hc.
    + simpl in Hr. rewrite (Hcl _ Hc) in Hr.
      apply andb_prop in Hr as [H1 H2]. apply Nat.ltb_lt in H1.
      destruct (IH (S count)) as [H3 H4]; [lia|done|].
      split; [simpl; lia|done].
    + split; [simpl; lia|].
      apply (runs_within_mono _ count); [lia|done].
Qed.

Lemma fgetc_length s : (String.length (fgetc s).2 <= String.length s)%nat.
Proof. destruct s; simpl; lia. Qed.

Lemma fgetc_runs_within limit count s :
  runs_within limit count s = true -> runs_within limit 0 (fgetc s).2 = true.
Proof. destruct s as [|a s]; [done|]. apply runs_within_tail. Qed.

Lemma after_pushback_runs_within limit s :
  runs_within limit 0 s = true -> runs_within limit 0 (after_pushback s) = true.
Proof.
  destruct s as [|a s]; [done|]. intros H.
  unfold after_pushback, ungetc; cbn [fgetc fst snd]. fold (char_of_ascii a).
  destruct (char_of_ascii a =? EOF).
  - by apply runs_within_tail in H.
  - by rewrite ascii_of_char_of_ascii.
Qed.

Lemma after_run_length class s :
  (String.length (after_run class s) <= String.length s)%nat.
Proof.
  induction s as [|a s IH]; simpl; [done|].
  destruct (class (char_of_ascii a)); simpl; lia.
Qed.

Lemma scan_step_eof_byte st a rest :
  file st = String a rest -> (char_of_ascii a =? EOF) = true ->
  scan_step st = Ok None.
Proof.
  intros Hf He. unfold scan_step. rewrite Hf. simpl.
  fold (char_of_ascii a). by rewrite He.
Qed.

(** With runs that fit, an iteration never touches a cell outside the
    scratch buffer: it is one of the three outcomes of [step_outcome]. *)
Lemma scan_step_outcome st :
  runs_fit (file st) = true -> buffer_index st = 0 ->
  length (buffer st) = 256%nat ->
  step_outcome st (scan_step st).
Proof.
  destruct st as [f toks buf idx]. cbn [file buffer buffer_index].
  intros Hfit -> Hlen.
  set (st := {| file := f; token_list := toks; buffer := buf; buffer_index := 0 |}).
  assert (Hidx : buffer_index st = 0) by done.
  assert (Hlen' : length (buffer st) = 256%nat) by done.
  destruct f as [|a rest].
  { rewrite scan_step_eof by done. constructor. }
  assert (Hf : file st = String a rest) by done.
  destruct (char_of_ascii a =? EOF) eqn:He.
  { rewrite (scan_step_eof_byte _ _ _ Hf He). constructor. }
  unfold runs_fit in Hfit.
  destruct (isspace (char_of_ascii a)) eqn:Hs.
  { rewrite (scan_step_space _ _ _ Hf Hs).
    apply step_skip; [rewrite Hf; simpl; lia|].
    by apply runs_within_tail in Hfit. }
  destruct (isalpha (char_of_ascii a)) eqn:Ha.
  { pose proof Hfit as Hfit'. simpl in Hfit'.
    rewrite (isalpha_isalnum _ Ha) in Hfit'. simpl in Hfit'.
    destruct (runs_within_run_of isalnum 255 1 rest) as [H1 H2]; [done|lia|done|].
    rewrite (scan_step_alpha _ _ _ Hf Ha Hidx Hlen') by lia.
    apply (step_token st).
    - rewrite Hf. simpl.
      pose proof (fgetc_length (after_run isalnum rest)).
      pose proof (after_run_length isalnum rest). lia.
    - by apply fgetc_runs_within in H2.
    - by rewrite length_replicate. }
  destruct (isdigit (char_of_ascii a)) eqn:Hd.
  { pose proof Hfit as Hfit'. simpl in Hfit'.
    rewrite (isdigit_isalnum _ Hd) in Hfit'. simpl in Hfit'.
    destruct (runs_within_run_of isdigit 255 1 rest) as [H1 H2];
      [apply isdigit_isalnum|lia|done|].
    rewrite (scan_step_digit _ _ _ Hf Hd Hidx Hlen') by lia.
    apply (step_token st).
    - rewrite Hf. simpl.
      pose proof (after_pushback_length (after_run isdigit rest)).
      pose proof (after_run_length isdigit rest). lia.
    - by apply after_pushback_runs_within.
    - by rewrite length_replicate. }
  assert (Han : isalnum (char_of_ascii a) = false).
  { unfold isalnum. by rewrite Ha, Hd. }
  apply runs_within_tail in Hfit.
  destruct (punctuation_token (char_of_ascii a)) as [tok|] eqn:Hp.
  { rewrite (scan_step_punctuation _ _ _ _ Hf Hp).
    apply step_token; [rewrite Hf; simpl; lia|done..]. }
  rewrite (scan_step_unknown _ _ _ Hf He Hs Han Hp) by (rewrite Hlen'; lia).
  apply step_token; [rewrite Hf; simpl; lia|done|].
  by rewrite !length_insert.
Qed.

(** *** Termination *)

Lemma store_defined buffer i c : store buffer i c <> OutOfFuel.
Proof. unfold store. by destruct (_ && _). Qed.

Lemma c_str_from_defined i cells : c_str_from i cells <> OutOfFuel.
Proof.
  revert i. induction cells as [|c cells IH]; intros i; simpl; [done|].
  destruct (c =? 0); [done|].
  specialize (IH (i + 1)). by destruct (c_str_from (i + 1) cells).
Qed.

Lemma c_str_from_stays i cells status message :
  c_str_from i cells <> Exit status message.
Proof.
  revert i. induction cells as [|c cells IH]; intros i; simpl; [done|].
  destruct (c =? 0); [done|].
  specialize (IH (i + 1)). by destruct (c_str_from (i + 1) cells).
Qed.

Lemma add_token_cases l ty v :
  (exists l', add_token l ty v = Ok l')
  \/ (exists i, add_token l ty v = Fault (TokensOutOfBounds i))
  \/ (exists message, add_token l ty v = Exit EXIT_FAILURE message).
Proof.
  unfold add_token, grow.
  destruct (_ >=? _); [destruct (realloc_tokens _ _)|]; simpl; eauto;
    unfold store_token; destruct (_ && _); eauto.
Qed.

(** Splits on the result of the [add_token] in the goal: stored, outside
    the block, or the process ended. *)
Ltac case_add_token :=
  match goal with
  | |- context [add_token ?l ?ty ?v] =>
      destruct (add_token_cases l ty v) as [[? ->]|[[? ->]|[? ->]]]
  end.

Lemma classify_cases tokens buffer :
  (exists l', classify tokens buffer = Ok l')
  \/ (exists f, classify tokens buffer = Fault f)
  \/ (exists message, classify tokens buffer = Exit EXIT_FAILURE message).
Proof.
  unfold classify.
  pose proof (c_str_from_defined 0 buffer) as Hc.
  pose proof (c_str_from_stays 0 buffer) as Hc'. unfold c_str.
  destruct (c_str_from 0 buffer) as [text|f|status message|];
    [|eauto|by destruct (Hc' status message)|done].
  rewrite bind_Ok.
  repeat match goal with
         | |- context [if ?b then _ else _] => destruct b
         end;
    case_add_token; eauto.
Qed.

Lemma run_loop_stream class file buf idx :
  match run_loop class file buf idx with
  | Ok (c, file', _, _) =>
      (String.length (ungetc c file') <= String.length file)%nat
      /\ (String.length file' <= String.length file)%nat
  | Fault _ | Exit _ _ => True
  | OutOfFuel => False
  end.
Proof.
  revert buf idx. induction file as [|a rest IH]; intros buf idx; simpl; [done|].
  fold (char_of_ascii a).
  destruct (class (char_of_ascii a)).
  - pose proof (store_defined buf idx (char_of_ascii a)) as Hs.
    destruct (store buf idx (char_of_ascii a)) as [buf'| | |]; [|done..].
    rewrite bind_Ok. specialize (IH buf' (idx + 1)).
    destruct (run_loop class rest buf' (idx + 1)) as [[[[c f'] b'] i']| | |]; [|done..].
    lia.
  - unfold ungetc. destruct (_ =? EOF); simpl; lia.
Qed.

(** An iteration that does not leave the loop shortens the stream, and an
    iteration is never short of fuel (it has none to spend). *)
Lemma scan_step_progress st :
  match scan_step st with
  | Ok None => True
  | Ok (Some st') => (String.length (file st') < String.length (file st))%nat
  | Fault _ | Exit _ _ => True
  | OutOfFuel => False
  end.
Proof.
  unfold scan_step.
  destruct (file st) as [|a rest]; simpl; [done|].
  fold (char_of_ascii a).
  destruct (char_of_ascii a =? EOF); [done|].
  destruct (isspace (char_of_ascii a)); [simpl; lia|].
  destruct (isalpha (char_of_ascii a)).
  { pose proof (store_defined (buffer st) (buffer_index st) (char_of_ascii a)).
    destruct (store _ _ _) as [b1| | |]; [|done..]. rewrite bind_Ok.
    pose proof (run_loop_stream isalnum rest b1 (buffer_index st + 1)) as Hr.
    destruct (run_loop _ _ _ _) as [[[[c f'] b2] i2]| | |]; [|done..].
    rewrite bind_Ok.
    pose proof (store_defined b2 i2 0).
    destruct (store b2 i2 0) as [b3| | |]; [|done..]. rewrite bind_Ok.
    destruct (classify_cases (token_list st) b3) as [[? ->]|[[? ->]|[? ->]]];
      [|done..].
    simpl. lia. }
  destruct (isdigit (char_of_ascii a)).
  { pose proof (store_defined (buffer st) (buffer_index st) (char_of_ascii a)).
    destruct (store _ _ _) as [b1| | |]; [|done..]. rewrite bind_Ok.
    pose proof (run_loop_stream isdigit rest b1 (buffer_index st + 1)) as Hr.
    destruct (run_loop _ _ _ _) as [[[[c f'] b2] i2]| | |]; [|done..].
    rewrite bind_Ok.
    pose proof (store_defined b2 i2 0).
    destruct (store b2 i2 0) as [b3| | |]; [|done..]. rewrite bind_Ok.
    pose proof (c_str_from_defined 0 b3) as Hc. unfold c_str.
    destruct (c_str_from 0 b3) as [text| | |]; [|done..]. rewrite bind_Ok.
    case_add_token; [|done..].
    simpl. lia. }
  repeat match goal with
         | |- context [if ?b then _ else _] => destruct b
         end;
    try (case_add_token; [|done..]; simpl; lia).
  pose proof (store_defined (buffer st) 0 (char_of_ascii a)).
  destruct (store _ _ _) as [b1| | |]; [|done..]. rewrite bind_Ok.
  pose proof (store_defined b1 1 0).
  destruct (store b1 1 0) as [b2| | |]; [|done..]. rewrite bind_Ok.
  pose proof (c_str_from_defined 0 b2) as Hc. unfold c_str.
  destruct (c_str_from 0 b2) as [text| | |]; [|done..]. rewrite bind_Ok.
  case_add_token; [|done..].
  simpl. lia.
Qed.

(** The loop is left only at the end of the stream or at a byte that
    equals [EOF] as a [char]: at any other byte the iteration runs the
    body. *)
Lemma scan_step_stays st a rest :
  file st = String a rest -> (char_of_ascii a =? EOF) = false ->
  scan_step st <> Ok None.
Proof.
  intros Hf He. unfold scan_step. rewrite Hf. simpl.
  fold (char_of_ascii a). rewrite He.
  destruct (isspace (char_of_ascii a)); [done|].
  destruct (isalpha (char_of_ascii a)).
  { destruct (store _ _ _) as [b1| | |]; [|done..]. rewrite bind_Ok.
    destruct (run_loop _ _ _ _) as [[[[c f'] b2] i2]| | |]; [|done..].
    rewrite bind_Ok.
    destruct (store b2 i2 0) as [b3| | |]; [|done..]. rewrite bind_Ok.
    by destruct (classify _ _). }
  destruct (isdigit (char_of_ascii a)).
  { destruct (store _ _ _) as [b1| | |]; [|done..]. rewrite bind_Ok.
    destruct (run_loop _ _ _ _) as [[[[c f'] b2] i2]| | |]; [|done..].
    rewrite bind_Ok.
    destruct (store b2 i2 0) as [b3| | |]; [|done..]. rewrite bind_Ok.
    destruct (c_str b3) as [text| | |]; [|done..]. rewrite bind_Ok.
    by case_add_token. }
  repeat match goal with
         | |- context [if ?b then _ else _] => destruct b
         end;
    try (by case_add_token).
  destruct (store _ _ _) as [b1| | |]; [|done..]. rewrite bind_Ok.
  destruct (store b1 1 0) as [b2| | |]; [|done..]. rewrite bind_Ok.
  destruct (c_str b2) as [text| | |]; [|done..]. rewrite bind_Ok.
  by case_add_token.
Qed.

Lemma lex_loop_S fuel st :
  lex_loop (S fuel) st =
  next ← scan_step st;
  match next with
  | None => Ok (token_list st)
  | Some st' => lex_loop fuel st'
  end.
Proof. done. Qed.

(** More bytes than the stream holds cannot be read: with more fuel than
    that the loop comes to an end. *)
Lemma lex_loop_fuel fuel st :
  (String.length (file st) < fuel)%nat -> lex_loop fuel st <> OutOfFuel.
Proof.
  revert st. induction fuel as [|fuel IH]; intros st Hlt; [lia|].
  simpl. pose proof (scan_step_progress st) as Hp.
  destruct (scan_step st) as [[st'|]| | |]; [|done..].
  rewrite bind_Ok. apply IH. lia.
Qed.

(** Once the loop has come to an end, more fuel changes nothing. *)
Lemma lex_loop_more_fuel fuel fuel' st :
  (fuel <= fuel')%nat -> lex_loop fuel st <> OutOfFuel ->
  lex_loop fuel' st = lex_loop fuel st.
Proof.
  revert fuel' st. induction fuel as [|fuel IH]; intros fuel' st Hle Hd; [done|].
  destruct fuel' as [|fuel']; [lia|].
  rewrite !lex_loop_S in *.
  destruct (scan_step st) as [[st'|]| | |]; [|done..].
  rewrite bind_Ok in *. apply IH; [lia|done].
Qed.

(** *** Safety of the scratch buffer and of the token block *)

Lemma lex_loop_scratch_safe fuel st i :
  runs_fit (file st) = true -> buffer_index st = 0 ->
  length (buffer st) = 256%nat ->
  lex_loop fuel st <> Fault (ScratchOutOfBounds i).
Proof.
  revert st. induction fuel as [|fuel IH]; intros st Hfit Hidx Hlen; [done|].
  simpl. destruct (scan_step_outcome st Hfit Hidx Hlen) as [|rest H1 H2|ty text rest buf H1 H2 H3].
  - done.
  - rewrite bind_Ok. by apply IH.
  - destruct (add_token_cases (token_list st) ty text)
      as [[l' ->]|[[j ->]|[m ->]]]; [|done..].
    rewrite !bind_Ok. apply IH; simpl; congruence.
Qed.

Lemma holds_room l toks (N : nat) :
  holds l toks -> 1 <= capacity l -> (length toks <= N)%nat ->
  sizeof_Token * (2 * Z.of_nat N) < 2 ^ SIZE_WIDTH -> room l.
Proof.
  intros (_ & Hs & Hle & _) H1 HN Hb. unfold room.
  destruct (Z.ltb_spec (size l) (capacity l)); [by left|right].
  split; [done|]. unfold sizeof_Token in *. lia.
Qed.


(* ================================================================= *)
(** * Growth of the token list *)

Lemma add_tokens_app l xs ys :
  add_tokens l (xs ++ ys) = l' ← add_tokens l xs; add_tokens l' ys.
Proof.
  revert l. induction xs as [|x xs IH]; intros l; simpl; [done|].
  destruct (add_token l (type x) (value x)) as [l'| | |]; [|done..].
  rewrite !bind_Ok. apply IH.
Qed.

(** The state after [k] appends to a list created with capacity [c]: the
    capacity is [c * 2^i], and [i > 0] only if [c * 2^(i-1)] slots were
    not enough. *)
Lemma growth_invariant c items :
  1 <= c -> sizeof_Token * c < 2 ^ SIZE_WIDTH ->
  sizeof_Token * (2 * Z.of_nat (length items)) <= 2 ^ SIZE_WIDTH ->
  exists l (i : nat),
    add_tokens (create_token_list c) items = Ok l
    /\ holds l items
    /\ capacity l = c * 2 ^ Z.of_nat i
    /\ (i = 0%nat \/ c * 2 ^ (Z.of_nat i - 1) < Z.of_nat (length items)).
Proof.
  intros Hc Hb. induction items as [|item items IH] using rev_ind; intros Hk.
  - exists (create_token_list c), 0%nat. simpl.
    split; [done|]. split; [apply create_token_list_holds; lia|].
    split; [lia|by left].
  - rewrite length_app in Hk. simpl in Hk.
    destruct IH as (l & i & Hl & Hh & Hcap & Hi); [unfold sizeof_Token in *; lia|].
    pose proof Hh as (_ & Hs & Hle & _).
    assert (Hp : 0 < 2 ^ Z.of_nat i) by (apply Z.pow_pos_nonneg; lia).
    destruct (add_token_holds l items (type item) (value item)) as (l' & Hl' & Hh' & Hcap').
    { done. }
    { apply (holds_room _ items (length items)); [done|nia|done|].
      unfold sizeof_Token in *. lia. }
    destruct item as [ty v]. simpl in *.
    rewrite add_tokens_app, Hl, bind_Ok. simpl. rewrite Hl', bind_Ok.
    destruct (Z.eqb_spec (size l) (capacity l)) as [Heq|Hne].
    + exists l', (S i). split; [done|]. split; [done|].
      split.
      * rewrite Hcap', Hcap, Nat2Z.inj_succ, Z.pow_succ_r by lia. lia.
      * right. rewrite length_app. simpl.
        replace (Z.of_nat (S i) - 1) with (Z.of_nat i) by lia. lia.
    + exists l', i. split; [done|]. split; [done|].
      split; [congruence|].
      destruct Hi as [Hi|Hi]; [by left|right].
      rewrite length_app. simpl. lia.
Qed.

Lemma smallest_doubling_intro c k (i : nat) :
  1 <= c -> k <= c * 2 ^ Z.of_nat i ->
  (i = 0%nat \/ c * 2 ^ (Z.of_nat i - 1) < k) ->
  smallest_doubling c k (c * 2 ^ Z.of_nat i).
Proof.
  intros Hc Hk Hi. exists i. split; [done|]. split; [done|].
  intros j Hj.
  apply Z.mul_le_mono_nonneg_l; [lia|].
  apply Z.pow_le_mono_r; [lia|].
  destruct Hi as [->|Hi]; [lia|].
  destruct (Z.le_gt_cases (Z.of_nat i) (Z.of_nat j)) as [|Hgt]; [done|exfalso].
  assert (Hpow : 2 ^ Z.of_nat j <= 2 ^ (Z.of_nat i - 1))
    by (apply Z.pow_le_mono_r; lia).
  nia.
Qed.

(** C4 as worded fails.  The capacity [2^60] is at least 1, and
    [sizeof(Token) * 2^60] is [2^64], which is 0 as a [size_t]:
    [create_token_list] asks for 0 bytes and records the capacity [2^60].
    The first append finds the length below the capacity, does not grow
    the block, and stores outside it: no list with a length within its
    capacity comes out of it. *)
Lemma C4_counterexample :
  1 <= 2 ^ 60
  /\ to_size_t (sizeof_Token * 2 ^ 60) = 0
  /\ tokens (create_token_list (2 ^ 60)) = []
  /\ capacity (create_token_list (2 ^ 60)) = 2 ^ 60
  /\ add_tokens (create_token_list (2 ^ 60)) [mkToken SEMICOLON ";"]
     = Fault (TokensOutOfBounds 0)
  /\ ~ exists l,
         add_tokens (create_token_list (2 ^ 60)) [mkToken SEMICOLON ";"] = Ok l
         /\ size l <= capacity l.
Proof.
  assert (H : add_tokens (create_token_list (2 ^ 60)) [mkToken SEMICOLON ";"]
              = Fault (TokensOutOfBounds 0)) by (vm_compute; reflexivity).
  split; [lia|]. split; [reflexivity|]. split; [reflexivity|].
  split; [reflexivity|]. split; [exact H|].
  intros (l & Hl & _). rewrite H in Hl. discriminate.
Qed.

(** C4, amended.  A list is created with capacity [c >= 1] and the tokens
    [items] are appended to it, [k] of them; the blocks asked of the
    allocator have sizes that are [size_t] values ([sizeof(Token) * c]
    is below [2^64] and [sizeof(Token) * 2k] is at most [2^64]).  After
    each append (after [j] of them, for every [j <= k]) the list holds
    the [j] tokens, its length [j] is at most its capacity, and the
    capacity is the smallest value [c * 2^i] that is at least [j] (it is
    [c] when [j <= c]).  In the next append the capacity changes only
    when the length has reached it, it is then doubled, [realloc] gives a
    block, and the token is stored in the list as grown, where the slot
    after the last token is free. *)
Theorem C4_growth (c : Z) (items : list Token) :
  1 <= c ->
  sizeof_Token * c < 2 ^ SIZE_WIDTH ->
  sizeof_Token * (2 * Z.of_nat (length items)) <= 2 ^ SIZE_WIDTH ->
  forall j : nat, (j <= length items)%nat ->
  exists l,
    add_tokens (create_token_list c) (take j items) = Ok l
    /\ token_seq l = take j items
    /\ size l = Z.of_nat j
    /\ size l <= capacity l
    /\ smallest_doubling c (Z.of_nat j) (capacity l)
    /\ (Z.of_nat j <= c -> capacity l = c)
    /\ forall item, items !! j = Some item ->
         exists grown l',
           grow l = Ok grown
           /\ capacity grown
              = (if size l =? capacity l then 2 * capacity l else capacity l)
           /\ size l < capacity grown
           /\ store_token grown item = Ok l'
           /\ add_tokens (create_token_list c) (take (S j) items) = Ok l'
           /\ capacity l' = capacity grown.
Proof.
  intros Hc Hb Hk j Hj.
  assert (Hlen : length (take j items) = j) by (rewrite length_take; lia).
  destruct (growth_invariant c (take j items)) as (l & i & Hl & Hh & Hcap & Hi);
    [done|done|rewrite Hlen; unfold sizeof_Token in *; lia|].
  rewrite Hlen in Hi.
  pose proof Hh as (_ & Hs & Hle & Hbl). rewrite Hlen in Hs.
  assert (Hp : 0 < 2 ^ Z.of_nat i) by (apply Z.pow_pos_nonneg; lia).
  exists l. split; [done|]. split; [by apply token_seq_holds|].
  split; [done|]. split; [done|].
  split; [rewrite Hcap; apply smallest_doubling_intro; [done|lia|done]|].
  split.
  { intros Hjc. destruct Hi as [->|Hi]; [rewrite Hcap; simpl; lia|].
    destruct i as [|i]; [rewrite Hcap; simpl; lia|exfalso].
    assert (0 < 2 ^ (Z.of_nat (S i) - 1)) by (apply Z.pow_pos_nonneg; lia).
    nia. }
  intros [ty v] Hitem.
  assert (Hjk : (j < length items)%nat) by (by eapply lookup_lt_Some).
  assert (Hroom : room l).
  { apply (holds_room _ (take j items) j); [done|nia|lia|].
    unfold sizeof_Token in *. lia. }
  destruct (add_token_holds l (take j items) ty v Hh Hroom) as (l' & Hl' & Hh' & Hcap').
  assert (Hg : exists grown,
             grow l = Ok grown
             /\ capacity grown
                = (if size l =? capacity l then 2 * capacity l else capacity l)
             /\ size l < capacity grown).
  { destruct (Z.eqb_spec (size l) (capacity l)) as [Heq|Hne].
    - destruct Hroom as [?|[H1 H2]]; [lia|].
      rewrite (grow_full l (take j items)) by done.
      eexists. split; [done|]. simpl. lia.
    - rewrite grow_free by lia. eexists. split; [done|]. lia. }
  destruct Hg as (grown & Hg & Hg1 & Hg2).
  exists grown, l'.
  unfold add_token in Hl'. rewrite Hg, bind_Ok in Hl'.
  split; [done|]. split; [done|]. split; [done|]. split; [exact Hl'|].
  split; [|congruence].
  rewrite (take_S_r _ _ _ Hitem), add_tokens_app, Hl, bind_Ok.
  simpl. unfold add_token. by rewrite Hg, bind_Ok, Hl', bind_Ok.
Qed.

Lemma C4_growth_witness :
  exists l,
    add_tokens (create_token_list 2)
      (take 3 [mkToken INT_KEYWORD "int"; mkToken IDENTIFIER "x";
               mkToken SEMICOLON ";"]) = Ok l
    /\ size l = 3 /\ capacity l = 4.
Proof.
  destruct (C4_growth 2
              [mkToken INT_KEYWORD "int"; mkToken IDENTIFIER "x";
               mkToken SEMICOLON ";"]
              ltac:(lia) ltac:(vm_compute; reflexivity)
              ltac:(vm_compute; congruence) 3%nat ltac:(simpl; lia))
    as (l & Hl & _ & Hs & _ & _ & _).
  exists l. split; [exact Hl|]. split; [exact Hs|].
  vm_compute in Hl. by injection Hl as <-.
Defined.

(* ================================================================= *)
(** * A list created with capacity 0 *)

Lemma grow_zero l :
  capacity l = 0 -> 0 <= size l ->
  grow l = Exit EXIT_FAILURE "ERROR: Failed to reallocate token list.".
Proof.
  intros Hc Hs. unfold grow. rewrite Hc.
  by destruct (Z.geb_spec (size l) 0); [|lia].
Qed.

(** C10 as worded fails.  An append to the list created with capacity 0
    stores nothing, inside the block or outside: the capacity is doubled
    to 0, [realloc] is asked for 0 bytes and returns the null pointer,
    and [add_token] ends the process before it comes to the store. *)
Lemma C10_counterexample :
  add_token (create_token_list 0) IDENTIFIER "x"
  = Exit EXIT_FAILURE "ERROR: Failed to reallocate token list."
  /\ add_token (create_token_list 0) IDENTIFIER "x"
     <> Fault (TokensOutOfBounds (size (create_token_list 0))).
Proof. split; [reflexivity|discriminate]. Qed.

(** C10, amended.  [create_token_list] accepts the capacity 0 and makes a
    list with that capacity and a block with no slot.  For every list of
    capacity 0 the doubling step leaves the capacity at 0 and asks
    [realloc] for 0 bytes; the null pointer comes back and [add_token]
    ends the process with its message and [EXIT_FAILURE]: nothing is
    stored, and no append to such a list ever succeeds.  With a capacity
    of at least 1 the first append succeeds, so the capacity a list is
    created with must be at least 1 for a token to be appended to it. *)
Theorem C10_zero_capacity (l : TokenList) (ty : TokenType) (v : string) :
  capacity l = 0 -> 0 <= size l ->
  (capacity (create_token_list 0) = 0 /\ tokens (create_token_list 0) = [])
  /\ to_size_t (capacity l * 2) = 0
  /\ realloc_tokens (tokens l) (to_size_t (sizeof_Token * to_size_t (capacity l * 2)))
     = None
  /\ add_token l ty v = Exit EXIT_FAILURE "ERROR: Failed to reallocate token list."
  /\ (forall l', add_token l ty v <> Ok l')
  /\ (forall c, 0 <= c -> sizeof_Token * c < 2 ^ SIZE_WIDTH ->
      (exists l', add_token (create_token_list c) ty v = Ok l') <-> 1 <= c).
Proof.
  intros Hc Hs.
  assert (Ha : add_token l ty v
               = Exit EXIT_FAILURE "ERROR: Failed to reallocate token list.")
    by (unfold add_token; by rewrite grow_zero).
  split; [done|].
  split; [by rewrite Hc|].
  split; [by rewrite Hc|].
  split; [exact Ha|].
  split; [intros l'; by rewrite Ha|].
  intros c H0 Hb. split.
  - intros [l' Hl'].
    destruct (Z.le_gt_cases 1 c) as [|Hlt]; [done|exfalso].
    assert (c = 0) as -> by lia. discriminate.
  - intros H1.
    destruct (add_token_holds (create_token_list c) [] ty v) as (l' & Hl' & _).
    + apply create_token_list_holds; lia.
    + left. simpl. lia.
    + eauto.
Qed.

Lemma C10_zero_capacity_witness :
  capacity (create_token_list 0) = 0 /\ 0 <= size (create_token_list 0)
  /\ add_token (create_token_list 0) IDENTIFIER "x"
     = Exit EXIT_FAILURE "ERROR: Failed to reallocate token list.".
Proof.
  split; [reflexivity|]. split; [simpl; lia|].
  apply (C10_zero_capacity (create_token_list 0) IDENTIFIER "x");
    [reflexivity|simpl; lia].
Defined.

(* ================================================================= *)
(** * Whole sources *)

Lemma run_of_all class s :
  all_chars class s = true -> run_of class s = s /\ after_run class s = "".
Proof.
  induction s as [|a s IH]; simpl; [done|].
  intros [-> H]%andb_prop. destruct (IH H) as [-> ->]. done.
Qed.

Lemma initial_frame stack source :
  let st := {| file := source; token_list := create_token_list 10;
               buffer := uninitialised stack 256; buffer_index := 0 |} in
  buffer_index st = 0 /\ length (buffer st) = 256%nat
  /\ holds (token_list st) [] /\ room (token_list st).
Proof.
  cbn [buffer buffer_index token_list file]. split; [done|]. split.
  { unfold uninitialised. by rewrite length_fmap, length_seq. }
  split; [by apply create_token_list_holds|].
  left. simpl. lia.
Qed.

Lemma lex_loop_whitespace fuel st :
  all_chars isspace (file st) = true ->
  (String.length (file st) < fuel)%nat ->
  lex_loop fuel st = Ok (token_list st).
Proof.
  destruct st as [f toks buf idx]. simpl.
  revert fuel. induction f as [|a f IH]; intros fuel Hw Hf.
  - destruct fuel; [simpl in Hf; lia|].
    by rewrite lex_loop_S, scan_step_eof.
  - destruct fuel; [simpl in Hf; lia|]. simpl in Hw, Hf.
    apply andb_prop in Hw as [Ha Hw].
    rewrite lex_loop_S, (scan_step_space _ a f) by done.
    rewrite bind_Ok. cbn [file token_list buffer buffer_index].
    apply IH; [done|lia].
Qed.

(** A source that is one alphabetic run gives the one token that the
    comparison with the keywords selects. *)
Lemma scan_alphabetic_run stack run :
  alphabetic_run run = true -> (String.length run <= 255)%nat ->
  scan stack run = Ok [{| type := kind_of_run run; value := run |}].
Proof.
  destruct run as [|a rest]; [done|]. simpl.
  intros [Ha Hrest]%andb_prop Hlen.
  destruct (run_of_all _ _ Hrest) as [Hrun Hafter].
  unfold scan, lex_file.
  destruct (initial_frame stack (String a rest)) as (Hidx & Hbuf & Hh & Hr).
  cbn zeta in *.
  rewrite lex_loop_S.
  rewrite (scan_step_alpha _ a rest) by (rewrite ?Hrun; done || lia).
  rewrite Hrun, Hafter.
  destruct (add_token_holds _ [] (kind_of_run (String a rest)) (String a rest) Hh Hr)
    as (l' & Hl' & Hh' & _).
  cbn [token_list] in *. rewrite Hl', !bind_Ok.
  change (String.length (String a rest)) with (S (String.length rest)).
  rewrite lex_loop_S, scan_step_eof by done. rewrite !bind_Ok.
  cbn [token_list]. by rewrite (token_seq_holds _ _ Hh').
Qed.

Lemma c_str_from_text i cells text :
  Forall is_char cells -> c_str_from i cells = Ok text -> Forall text_char text.
Proof.
  intros Hc. revert i text.
  induction Hc as [|c cells Hc _ IH]; intros i text; simpl; [done|].
  destruct (Z.eqb_spec c 0) as [|Hne]; [by intros [= <-]|].
  destruct (c_str_from (i + 1) cells) as [t| | |] eqn:E; [|done..].
  rewrite bind_Ok. intros [= <-]. constructor; [done|]. by eapply IH.
Qed.

(** C5.  The comparison of lines 220-226 is exact: for a [char] buffer
    that holds the completed run [run], the token appended is
    [INT_KEYWORD] "int" when [run] is exactly "int", [RETURN_KEYWORD]
    "return" when it is exactly "return", and otherwise one [IDENTIFIER]
    whose text is the whole run.  Read from a source, every alphabetic
    run that fits the scratch buffer gives that one token; so "int" and
    "return" are keywords and "int2", "Int" and "integer" identifiers. *)
Theorem C5_keyword_classification
    (stack : nat -> Z) (tokens : TokenList) (buffer : list Z) (text : list Z) :
  Forall is_char buffer -> c_str buffer = Ok text ->
  let run := string_of_chars text in
  (run = "int" -> classify tokens buffer = add_token tokens INT_KEYWORD "int")
  /\ (run = "return" ->
      classify tokens buffer = add_token tokens RETURN_KEYWORD "return")
  /\ (run <> "int" -> run <> "return" ->
      classify tokens buffer = add_token tokens IDENTIFIER run)
  /\ (forall source, alphabetic_run source = true ->
      (String.length source <= 255)%nat ->
      (source = "int" -> scan stack source = Ok [mkToken INT_KEYWORD "int"])
      /\ (source = "return" ->
          scan stack source = Ok [mkToken RETURN_KEYWORD "return"])
      /\ (source <> "int" -> source <> "return" ->
          scan stack source = Ok [mkToken IDENTIFIER source]))
  /\ scan stack "int2" = Ok [mkToken IDENTIFIER "int2"]
  /\ scan stack "Int" = Ok [mkToken IDENTIFIER "Int"]
  /\ scan stack "integer" = Ok [mkToken IDENTIFIER "integer"].
Proof.
  intros Hb Hc run.
  assert (Ht : Forall text_char text) by (by eapply c_str_from_text).
  pose proof (classify_text tokens buffer text Hc Ht) as Hcl.
  fold run in Hcl. unfold kind_of_run in Hcl.
  split; [intros E; by rewrite Hcl, E|].
  split; [intros E; by rewrite Hcl, E|].
  split.
  { intros E1 E2. rewrite Hcl. by rewrite !bool_decide_eq_false_2. }
  split.
  { intros source Ha Hlen.
    pose proof (scan_alphabetic_run stack source Ha Hlen) as Hs.
    unfold kind_of_run in Hs.
    split; [intros E; by rewrite Hs, E|].
    split; [intros E; by rewrite Hs, E|].
    intros E1 E2. by rewrite Hs, !bool_decide_eq_false_2. }
  split; [|split]; rewrite (scan_alphabetic_run stack); try done; simpl; lia.
Qed.

Lemma C5_keyword_classification_witness :
  Forall is_char (chars_of_string "int2" ++ [0; 0])
  /\ c_str (chars_of_string "int2" ++ [0; 0]) = Ok (chars_of_string "int2")
  /\ classify (create_token_list 10) (chars_of_string "int2" ++ [0; 0])
     = add_token (create_token_list 10) IDENTIFIER "int2".
Proof.
  assert (Hb : Forall is_char (chars_of_string "int2" ++ [0; 0])).
  { repeat constructor; vm_compute; congruence. }
  assert (Hc : c_str (chars_of_string "int2" ++ [0; 0]) = Ok (chars_of_string "int2"))
    by reflexivity.
  split; [exact Hb|]. split; [exact Hc|].
  destruct (C5_keyword_classification (fun _ => 0) (create_token_list 10)
              _ _ Hb Hc) as (_ & _ & H & _).
  apply H; vm_compute; congruence.
Defined.

(** C8.  A source that consists of whitespace only ([isspace_chars]
    lists the characters; the empty source is included) is scanned to
    the empty token sequence: [lex] returns the list as
    [create_token_list] made it, with no token in it. *)
Theorem C8_whitespace_only (stack : nat -> Z) (source : string) :
  all_chars isspace source = true ->
  scan stack source = Ok []
  /\ forall fs filename, fopen fs filename = Some source ->
       lex stack fs filename = Ok (Some (create_token_list 10))
       /\ token_seq (create_token_list 10) = []
       /\ size (create_token_list 10) = 0.
Proof.
  intros Hw.
  assert (Hl : lex_file stack source = Ok (create_token_list 10)).
  { unfold lex_file. rewrite lex_loop_whitespace; [done|done|simpl; lia]. }
  split; [unfold scan; by rewrite Hl|].
  intros fs filename Hf. unfold lex. by rewrite Hf, Hl.
Qed.

Lemma C8_whitespace_only_witness :
  all_chars isspace (String " " (String "009" (String "010" ""))) = true
  /\ scan (fun _ => 0) (String " " (String "009" (String "010" ""))) = Ok [].
Proof.
  split; [reflexivity|].
  apply (C8_whitespace_only (fun _ => 0)). reflexivity.
Defined.

Lemma lex_file_terminates stack source : lex_file stack source <> OutOfFuel.
Proof. unfold lex_file. apply lex_loop_fuel. simpl. lia. Qed.





(* ================================================================= *)
(** * The bound of the scratch buffer *)

Lemma run_loop_overflow class file buf (n : nat) :
  (n <= length buf)%nat ->
  (length buf < n + String.length (run_of class file))%nat ->
  run_loop class file buf (Z.of_nat n)
  = Fault (ScratchOutOfBounds (Z.of_nat (length buf))).
Proof.
  revert buf n. induction file as [|a rest IH]; intros buf n Hn Hlen;
    simpl in *; [lia|].
  fold (char_of_ascii a).
  destruct (class (char_of_ascii a)); simpl in Hlen; [|lia].
  destruct (Nat.eq_dec n (length buf)) as [->|Hne].
  - by rewrite store_out_of_bounds.
  - rewrite store_in_bounds, bind_Ok by lia.
    replace (Z.of_nat n + 1) with (Z.of_nat (S n)) by lia.
    rewrite IH; rewrite ?length_insert; [done|lia|lia].
Qed.

(** A run of 256 characters or more makes the iteration that reads it
    store at index 256. *)
Lemma scan_step_overflow st a rest class :
  file st = String a rest ->
  (class = isalnum /\ isalpha (char_of_ascii a) = true)
  \/ (class = isdigit /\ isdigit (char_of_ascii a) = true) ->
  buffer_index st = 0 -> length (buffer st) = 256%nat ->
  (255 <= String.length (run_of class rest))%nat ->
  scan_step st = Fault (ScratchOutOfBounds 256).
Proof.
  destruct st as [f toks buf idx]; simpl. intros -> Hclass -> Hlen Hrun.
  unfold scan_step; simpl. fold (char_of_ascii a).
  assert (Han : isalnum (char_of_ascii a) = true).
  { destruct Hclass as [[_ H]|[_ H]];
      [by apply isalpha_isalnum|by apply isdigit_isalnum]. }
  rewrite (isalnum_not_EOF _ Han), (isalnum_not_space _ Han).
  assert (Hloop :
    (buffer0 ← store buf 0 (char_of_ascii a);
     '(c, file0, buffer1, buffer_index0) ← run_loop class rest buffer0 (0 + 1);
     store buffer1 buffer_index0 0)
    = Fault (ScratchOutOfBounds 256)).
  { rewrite (store_in_bounds buf 0), bind_Ok by lia.
    change (0 + 1) with (Z.of_nat 1).
    destruct (Nat.eq_dec (String.length (run_of class rest)) 255) as [E|E].
    - rewrite run_loop_fits, bind_Ok by (rewrite length_insert; lia).
      cbv beta iota. rewrite E.
      rewrite store_out_of_bounds; [done|].
      rewrite !length_app, length_take, length_drop, length_chars_of_string,
        length_insert, E. lia.
    - rewrite run_loop_overflow by (rewrite length_insert; lia).
      by rewrite length_insert, Hlen. }
  destruct Hclass as [[-> Ha]|[-> Hd]].
  - rewrite Ha.
    destruct (store buf 0 (char_of_ascii a)) as [b1| | |];
      [|simpl in *; congruence..].
    rewrite bind_Ok in Hloop. rewrite bind_Ok.
    destruct (run_loop isalnum rest b1 (0 + 1)) as [[[[c f'] b2] i2]| | |];
      [|simpl in *; congruence..].
    rewrite bind_Ok in Hloop. rewrite bind_Ok. by rewrite Hloop.
  - rewrite (isdigit_not_alpha _ Hd), Hd.
    destruct (store buf 0 (char_of_ascii a)) as [b1| | |];
      [|simpl in *; congruence..].
    rewrite bind_Ok in Hloop. rewrite bind_Ok.
    destruct (run_loop isdigit rest b1 (0 + 1)) as [[[[c f'] b2] i2]| | |];
      [|simpl in *; congruence..].
    rewrite bind_Ok in Hloop. rewrite bind_Ok. by rewrite Hloop.
Qed.

Lemma add_token_bind_scratch_safe {B} l ty v (k : TokenList -> B) i :
  (tokens ← add_token l ty v; Ok (k tokens)) <> Fault (ScratchOutOfBounds i).
Proof. by case_add_token. Qed.

(** C9.  The scratch buffer has 256 cells and the stores to it are not
    guarded.  An iteration that reads a run of at most 255 characters,
    alphabetic or of digits, keeps every store inside the buffer, and so
    does the scan of any source in which no stretch of alphanumeric
    characters is longer than 255; an iteration that reads a run of 256
    characters or more stores at index 256, past the end, as the scan of
    256 letters or of 256 digits does. *)
Theorem C9_scratch_buffer
    (stack : nat -> Z) (st : frame) (a : ascii) (rest : string) :
  file st = String a rest -> buffer_index st = 0 ->
  length (buffer st) = 256%nat ->
  length (uninitialised stack 256) = 256%nat
  /\ (isalpha (char_of_ascii a) = true ->
      ((String.length (String a (run_of isalnum rest)) <= 255)%nat ->
       forall i, scan_step st <> Fault (ScratchOutOfBounds i))
      /\ ((256 <= String.length (String a (run_of isalnum rest)))%nat ->
          scan_step st = Fault (ScratchOutOfBounds 256)))
  /\ (isdigit (char_of_ascii a) = true ->
      ((String.length (String a (run_of isdigit rest)) <= 255)%nat ->
       forall i, scan_step st <> Fault (ScratchOutOfBounds i))
      /\ ((256 <= String.length (String a (run_of isdigit rest)))%nat ->
          scan_step st = Fault (ScratchOutOfBounds 256)))
  /\ (forall source i, runs_fit source = true ->
      lex_file stack source <> Fault (ScratchOutOfBounds i))
  /\ lex_file stack (copies 256 "a") = Fault (ScratchOutOfBounds 256)
  /\ lex_file stack (copies 256 "7") = Fault (ScratchOutOfBounds 256).
Proof.
  intros Hf Hidx Hlen.
  split; [unfold uninitialised; by rewrite length_fmap, length_seq|].
  split.
  { intros Ha. simpl. split.
    - intros Hrun i. rewrite (scan_step_alpha _ _ _ Hf Ha Hidx Hlen) by lia.
      apply add_token_bind_scratch_safe.
    - intros Hrun. apply (scan_step_overflow st a rest isalnum); auto. lia. }
  split.
  { intros Hd. simpl. split.
    - intros Hrun i. rewrite (scan_step_digit _ _ _ Hf Hd Hidx Hlen) by lia.
      apply add_token_bind_scratch_safe.
    - intros Hrun. apply (scan_step_overflow st a rest isdigit); auto. lia. }
  split.
  { intros source i Hfit. unfold lex_file.
    destruct (initial_frame stack source) as (Hi & Hb & _).
    by apply lex_loop_scratch_safe. }
  split; vm_compute; reflexivity.
Qed.

Lemma C9_scratch_buffer_witness :
  file (first_frame "ab;") = "ab;"
  /\ buffer_index (first_frame "ab;") = 0
  /\ length (buffer (first_frame "ab;")) = 256%nat
  /\ (forall i, scan_step (first_frame "ab;") <> Fault (ScratchOutOfBounds i))
  /\ lex_file (fun _ => 0) (copies 256 "a") = Fault (ScratchOutOfBounds 256).
Proof.
  destruct (C9_scratch_buffer (fun _ => 0) (first_frame "ab;") "a" "b;"
              ltac:(reflexivity) ltac:(reflexivity) ltac:(reflexivity))
    as (_ & Ha & _ & _ & Hl & _).
  split; [reflexivity|]. split; [reflexivity|]. split; [reflexivity|].
  split; [|exact Hl].
  apply Ha; [reflexivity|simpl; lia].
Defined.

(* ================================================================= *)
(** * Runs and the character that ends them *)

Lemma run_of_app class run rest :
  all_chars class run = true -> starts_with class rest = false ->
  run_of class (run +:+ rest) = run /\ after_run class (run +:+ rest) = rest.
Proof.
  intros Hrun Hrest. induction run as [|a run IH].
  - change ("" +:+ rest) with rest.
    destruct rest as [|b rest]; simpl in *; [done|]. by rewrite Hrest.
  - change (String a run +:+ rest) with (String a (run +:+ rest)).
    simpl in *. apply andb_prop in Hrun as [-> Hrun].
    destruct (IH Hrun) as [-> ->]. done.
Qed.

(** C3 as worded fails, in both of its parts.  A run of 256 digits gives
    no token: the scan stores past the end of the scratch buffer.  And
    the byte 255 that ends the run "1" is not pushed back: read into the
    [char] [c] it equals [EOF], which [ungetc] refuses, so the next
    iteration sees the ';' behind it; had it seen the byte 255, the scan
    would have ended there, as it does on a source that starts with it. *)
Lemma C3_counterexample :
  (digit_run (copies 256 "7") = true
   /\ scan (fun _ => 0) (copies 256 "7") = Fault (ScratchOutOfBounds 256)
   /\ ~ exists toks, scan (fun _ => 0) (copies 256 "7") = Ok toks)
  /\ (scan_step (first_frame (String "1" (String "255" ";")))
      = Ok (Some {| file := ";";
                    token_list :=
                      {| tokens := Some (mkToken INT_LITERAL "1") :: replicate 9 None;
                         size := 1; capacity := 10 |};
                    buffer := replicate 256 0; buffer_index := 0 |})
      /\ scan (fun _ => 0) (String "1" (String "255" ";"))
         = Ok [mkToken INT_LITERAL "1"; mkToken SEMICOLON ";"]
      /\ scan (fun _ => 0) (String "255" ";") = Ok []).
Proof.
  assert (H : scan (fun _ => 0) (copies 256 "7") = Fault (ScratchOutOfBounds 256))
    by (vm_compute; reflexivity).
  split.
  - split; [vm_compute; reflexivity|]. split; [exact H|].
    intros (toks & Hs). rewrite H in Hs. discriminate.
  - repeat split; vm_compute; reflexivity.
Qed.

(** C3, amended.  An iteration starts at a run of digits, of at most 255
    of them, that is followed by the end of the source or by a character
    that is not a digit; the token list has room.  Then the iteration
    appends exactly one token, [INT_LITERAL] with the whole run as its
    text, whatever ends the run, and empties the scratch buffer.  It
    leaves the stream as [ungetc] makes it: when the run is not ended by
    the byte 255, at the character that ended the run, so that the next
    iteration reads that character first and takes it through the loop
    body (it leaves the loop only where the source ends with the run). *)
Theorem C3_digit_run
    (st : frame) (toks : list Token) (run rest : string) :
  file st = run +:+ rest ->
  digit_run run = true -> (String.length run <= 255)%nat ->
  starts_with isdigit rest = false ->
  buffer_index st = 0 -> length (buffer st) = 256%nat ->
  holds (token_list st) toks -> room (token_list st) ->
  exists st',
    scan_step st = Ok (Some st')
    /\ token_seq (token_list st')
       = token_seq (token_list st) ++ [{| type := INT_LITERAL; value := run |}]
    /\ holds (token_list st') (toks ++ [{| type := INT_LITERAL; value := run |}])
    /\ buffer st' = replicate 256 0
    /\ buffer_index st' = 0
    /\ file st' = after_pushback rest
    /\ (starts_with (fun c => c =? EOF) rest = false ->
        file st' = rest
        /\ (scan_step st' = Ok None <-> rest = "")).
Proof.
  intros Hf Hrun Hlen Hrest Hidx Hbuf Hh Hr.
  destruct run as [|a run]; [done|]. simpl in Hrun, Hlen.
  apply andb_prop in Hrun as [Hd Hrun].
  change (String a run +:+ rest) with (String a (run +:+ rest)) in Hf.
  destruct (run_of_app isdigit run rest Hrun Hrest) as [E1 E2].
  rewrite (scan_step_digit _ _ _ Hf Hd Hidx Hbuf) by (rewrite E1; lia).
  rewrite E1, E2, Hbuf.
  destruct (add_token_holds _ _ INT_LITERAL (String a run) Hh Hr) as (l' & -> & Hh' & _).
  rewrite bind_Ok. eexists. split; [done|]. cbn [file token_list buffer buffer_index].
  split; [by rewrite (token_seq_holds _ _ Hh'), (token_seq_holds _ _ Hh)|].
  split; [done|]. split; [done|]. split; [done|]. split; [done|].
  intros Hff. rewrite (after_pushback_id _ Hff). split; [done|].
  destruct rest as [|b rest].
  - split; [done|]. intros _. by apply scan_step_eof.
  - split; [|done]. intros Hnone. exfalso.
    set (st' := {| file := String b rest; token_list := l';
                   buffer := replicate 256 0; buffer_index := 0 |}) in *.
    by apply (scan_step_stays st' b rest eq_refl Hff).
Qed.

Lemma C3_digit_run_witness :
  file (first_frame "42;") = "42" +:+ ";"
  /\ digit_run "42" = true
  /\ (String.length "42" <= 255)%nat
  /\ starts_with isdigit ";" = false
  /\ holds (token_list (first_frame "42;")) []
  /\ room (token_list (first_frame "42;"))
  /\ exists st',
       scan_step (first_frame "42;") = Ok (Some st')
       /\ token_seq (token_list st') = [mkToken INT_LITERAL "42"]
       /\ file st' = ";".
Proof.
  assert (Hh : holds (token_list (first_frame "42;")) [])
    by (by apply create_token_list_holds).
  assert (Hr : room (token_list (first_frame "42;"))) by (left; simpl; lia).
  split; [reflexivity|]. split; [reflexivity|]. split; [simpl; lia|].
  split; [reflexivity|]. split; [exact Hh|]. split; [exact Hr|].
  destruct (C3_digit_run (first_frame "42;") [] "42" ";"
              ltac:(reflexivity) ltac:(reflexivity)
              ltac:(simpl; lia) ltac:(reflexivity)
              ltac:(reflexivity) ltac:(reflexivity) Hh Hr)
    as (st' & Hs & Hseq & _ & _ & _ & Hfile & _).
  exists st'. split; [exact Hs|]. split; [exact Hseq|exact Hfile].
Defined.

(* ================================================================= *)
(** * The character that ends an alphabetic run *)

(** C1 at the source "x;".  The iteration that reads the identifier also
    reads the ';' that ends it and nothing puts it back ([ungetc] is
    commented out in this branch): the scan gives the identifier alone.
    After a digit run, where [ungetc] is called, the same ';' gets its
    token.  [scan_step_alpha] has the general form: after any alphabetic
    run the stream stands behind the character that ended it. *)
Theorem C1_terminator_consumed (stack : nat -> Z) :
  scan stack "x;" = Ok [mkToken IDENTIFIER "x"]
  /\ scan stack "1;" = Ok [mkToken INT_LITERAL "1"; mkToken SEMICOLON ";"]
  /\ scan_step {| file := "x;"; token_list := create_token_list 10;
                  buffer := uninitialised stack 256; buffer_index := 0 |}
     = tokens ← add_token (create_token_list 10) IDENTIFIER "x";
       Ok (Some {| file := ""; token_list := tokens;
                   buffer := replicate 256 0; buffer_index := 0 |}).
Proof.
  split; [vm_compute; reflexivity|]. split; [vm_compute; reflexivity|].
  destruct (initial_frame stack "x;") as (Hidx & Hbuf & _).
  cbn zeta in *.
  rewrite (scan_step_alpha _ "x" ";") by (done || (simpl; lia)).
  by rewrite Hbuf.
Qed.

(** C2 at the source of the scenario.  The '(' that ends "main" is read
    with the identifier and lost: the sequence has eight tokens, and its
    kinds are not the nine of the scenario, [L_PARAN] is missing. *)
Theorem C2_int_main (stack : nat -> Z) :
  scan stack "int main() { return 0; }"
  = Ok [mkToken INT_KEYWORD "int"; mkToken IDENTIFIER "main";
        mkToken R_PARAN ")"; mkToken L_BRACE "{";
        mkToken RETURN_KEYWORD "return"; mkToken INT_LITERAL "0";
        mkToken SEMICOLON ";"; mkToken R_BRACE "}"]
  /\ forall toks,
       scan stack "int main() { return 0; }" = Ok toks ->
       type <$> toks
       <> [INT_KEYWORD; IDENTIFIER; L_PARAN; R_PARAN; L_BRACE;
           RETURN_KEYWORD; INT_LITERAL; SEMICOLON; R_BRACE].
Proof.
  assert (H : scan stack "int main() { return 0; }"
              = Ok [mkToken INT_KEYWORD "int"; mkToken IDENTIFIER "main";
                    mkToken R_PARAN ")"; mkToken L_BRACE "{";
                    mkToken RETURN_KEYWORD "return"; mkToken INT_LITERAL "0";
                    mkToken SEMICOLON ";"; mkToken R_BRACE "}"])
    by (vm_compute; reflexivity).
  split; [exact H|]. intros toks Ht. rewrite H in Ht.
  injection Ht as <-. discriminate.
Qed.

(** C7 at the sources "@" and "x@".  Alone, the unrecognised '@' becomes
    the one token [UNKNOWN] "@" and the scan goes on to the end.  Right
    after an identifier it is the character that ends the run, is read
    with it and gets no token. *)
Theorem C7_unknown_character (stack : nat -> Z) :
  scan stack "@" = Ok [mkToken UNKNOWN "@"]
  /\ scan stack "@ @" = Ok [mkToken UNKNOWN "@"; mkToken UNKNOWN "@"]
  /\ scan stack "x@" = Ok [mkToken IDENTIFIER "x"]
  /\ scan stack "x12=3;"
     = Ok [mkToken IDENTIFIER "x12"; mkToken INT_LITERAL "3"; mkToken SEMICOLON ";"].
Proof. repeat split; vm_compute; reflexivity. Qed.

(** Two bytes that are no text.  The byte 255, read into the [char] [c],
    equals [EOF]: it ends the scan where it stands, and after a digit run
    [ungetc] pushes nothing back for it.  The byte 0 ends the C string it
    is copied to, so its [UNKNOWN] token has the empty text. *)
Lemma bytes_255_and_0 (stack : nat -> Z) :
  scan stack (String "x" (String "255" "y")) = Ok [mkToken IDENTIFIER "x"; mkToken IDENTIFIER "y"]
  /\ scan stack (String "255" "y") = Ok []
  /\ scan stack (String "1" (String "255" "2"))
     = Ok [mkToken INT_LITERAL "1"; mkToken INT_LITERAL "2"]
  /\ scan stack (String "000" "") = Ok [mkToken UNKNOWN ""].
Proof. repeat split; vm_compute; reflexivity. Qed.

(* ================================================================= *)
(** * Further properties of one iteration *)

(** X1.  An iteration starts at an alphabetic run of at most 255
    characters and the token list has room.  Then the iteration appends
    exactly one token, of the kind the comparison with the keywords gives
    and with the run as its text, empties the scratch buffer, and leaves
    the stream behind the character that ended the run: that character is
    read and not put back. *)
Theorem X1_alphabetic_step
    (st : frame) (toks : list Token) (run rest : string) :
  file st = run +:+ rest ->
  alphabetic_run run = true -> (String.length run <= 255)%nat ->
  starts_with isalnum rest = false ->
  buffer_index st = 0 -> length (buffer st) = 256%nat ->
  holds (token_list st) toks -> room (token_list st) ->
  exists tokens',
    scan_step st = Ok (Some {| file := (fgetc rest).2; token_list := tokens';
                               buffer := replicate 256 0; buffer_index := 0 |})
    /\ token_seq tokens'
       = token_seq (token_list st) ++ [{| type := kind_of_run run; value := run |}]
    /\ holds tokens' (toks ++ [{| type := kind_of_run run; value := run |}]).
Proof.
  intros Hf Hrun Hlen Hrest Hidx Hbuf Hh Hr.
  destruct run as [|a run]; [done|]. simpl in Hrun, Hlen.
  apply andb_prop in Hrun as [Ha Hrun].
  change (String a run +:+ rest) with (String a (run +:+ rest)) in Hf.
  destruct (run_of_app isalnum run rest Hrun Hrest) as [E1 E2].
  rewrite (scan_step_alpha _ _ _ Hf Ha Hidx Hbuf) by (rewrite E1; lia).
  rewrite E1, E2, Hbuf.
  destruct (add_token_holds _ _ (kind_of_run (String a run)) (String a run) Hh Hr)
    as (l' & -> & Hh' & _).
  rewrite bind_Ok. exists l'. split; [done|]. split; [|done].
  by rewrite (token_seq_holds _ _ Hh'), (token_seq_holds _ _ Hh).
Qed.

Lemma X1_alphabetic_step_witness :
  file (first_frame "main()") = "main" +:+ "()"
  /\ alphabetic_run "main" = true
  /\ starts_with isalnum "()" = false
  /\ exists tokens',
       scan_step (first_frame "main()")
       = Ok (Some {| file := ")"; token_list := tokens';
                     buffer := replicate 256 0; buffer_index := 0 |})
       /\ token_seq tokens' = [mkToken IDENTIFIER "main"].
Proof.
  assert (Hh : holds (token_list (first_frame "main()")) [])
    by (by apply create_token_list_holds).
  assert (Hr : room (token_list (first_frame "main()"))) by (left; simpl; lia).
  split; [reflexivity|]. split; [reflexivity|]. split; [reflexivity|].
  destruct (X1_alphabetic_step (first_frame "main()") [] "main" "()"
              ltac:(reflexivity) ltac:(reflexivity) ltac:(simpl; lia)
              ltac:(reflexivity) ltac:(reflexivity) ltac:(reflexivity) Hh Hr)
    as (tokens' & Hs & Hseq & _).
  exists tokens'. split; [exact Hs|exact Hseq].
Defined.

Lemma punctuation_token_of a ty :
  (a, ty) ∈ punctuation ->
  punctuation_token (char_of_ascii a) = Some {| type := ty; value := String a "" |}.
Proof.
  unfold punctuation. rewrite !elem_of_cons, elem_of_nil.
  intros [[= -> ->]|[[= -> ->]|[[= -> ->]|[[= -> ->]|[[= -> ->]|[]]]]]]; reflexivity.
Qed.

(** X2.  An iteration that starts at one of the characters ( ) { } ; reads
    that one character and appends one token, of the character's kind and
    with the character as its text; the scratch buffer is not touched. *)
Theorem X2_punctuation_step
    (st : frame) (toks : list Token) (a : ascii) (ty : TokenType) (rest : string) :
  file st = String a rest -> (a, ty) ∈ punctuation ->
  holds (token_list st) toks -> room (token_list st) ->
  exists tokens',
    scan_step st = Ok (Some {| file := rest; token_list := tokens';
                               buffer := buffer st;
                               buffer_index := buffer_index st |})
    /\ token_seq tokens'
       = token_seq (token_list st) ++ [{| type := ty; value := String a "" |}]
    /\ holds tokens' (toks ++ [{| type := ty; value := String a "" |}]).
Proof.
  intros Hf Hp Hh Hr.
  rewrite (scan_step_punctuation _ _ _ _ Hf (punctuation_token_of _ _ Hp)).
  cbn [type value].
  destruct (add_token_holds _ _ ty (String a "") Hh Hr) as (l' & -> & Hh' & _).
  rewrite bind_Ok. exists l'. split; [done|]. split; [|done].
  by rewrite (token_seq_holds _ _ Hh'), (token_seq_holds _ _ Hh).
Qed.

Lemma X2_punctuation_step_witness :
  file (first_frame "{}") = String "{" "}"
  /\ ("{"%char, L_BRACE) ∈ punctuation
  /\ exists tokens',
       scan_step (first_frame "{}")
       = Ok (Some {| file := "}"; token_list := tokens';
                     buffer := replicate 256 0; buffer_index := 0 |})
       /\ token_seq tokens' = [mkToken L_BRACE "{"].
Proof.
  assert (Hh : holds (token_list (first_frame "{}")) [])
    by (by apply create_token_list_holds).
  assert (Hr : room (token_list (first_frame "{}"))) by (left; simpl; lia).
  assert (Hp : ("{"%char, L_BRACE) ∈ punctuation)
    by (unfold punctuation; rewrite !elem_of_cons; auto).
  split; [reflexivity|]. split; [exact Hp|].
  destruct (X2_punctuation_step (first_frame "{}") [] "{" L_BRACE "}"
              ltac:(reflexivity) Hp Hh Hr)
    as (tokens' & Hs & Hseq & _).
  exists tokens'. split; [exact Hs|exact Hseq].
Defined.

(** X3.  An iteration starts at a byte that, read into [c], is not [EOF],
    not whitespace, not alphanumeric and none of ( ) { } ; and the token
    list has room.  Then the iteration reads that one byte and appends one
    [UNKNOWN] token whose text is the byte, or the empty text when the
    byte is NUL; it writes cells 0 and 1 of the scratch buffer only and
    the scan goes on with the next byte. *)
Theorem X3_unknown_step
    (st : frame) (toks : list Token) (a : ascii) (rest : string) :
  file st = String a rest ->
  (char_of_ascii a =? EOF) = false -> isspace (char_of_ascii a) = false ->
  isalnum (char_of_ascii a) = false ->
  punctuation_token (char_of_ascii a) = None ->
  (2 <= length (buffer st))%nat ->
  holds (token_list st) toks -> room (token_list st) ->
  let text := if char_of_ascii a =? 0 then "" else String a "" in
  exists tokens',
    scan_step st
    = Ok (Some {| file := rest; token_list := tokens';
                  buffer := <[1%nat := 0]> (<[0%nat := char_of_ascii a]> (buffer st));
                  buffer_index := buffer_index st |})
    /\ token_seq tokens'
       = token_seq (token_list st) ++ [{| type := UNKNOWN; value := text |}]
    /\ holds tokens' (toks ++ [{| type := UNKNOWN; value := text |}]).
Proof.
  intros Hf He Hs Han Hp Hlen Hh Hr text.
  rewrite (scan_step_unknown _ _ _ Hf He Hs Han Hp Hlen). fold text.
  destruct (add_token_holds _ _ UNKNOWN text Hh Hr) as (l' & -> & Hh' & _).
  rewrite bind_Ok. exists l'. split; [done|]. split; [|done].
  by rewrite (token_seq_holds _ _ Hh'), (token_seq_holds _ _ Hh).
Qed.

Lemma X3_unknown_step_witness :
  file (first_frame "@x") = String "@" "x"
  /\ exists tokens',
       scan_step (first_frame "@x")
       = Ok (Some {| file := "x"; token_list := tokens';
                     buffer := <[1%nat := 0]> (<[0%nat := 64]> (replicate 256 0));
                     buffer_index := 0 |})
       /\ token_seq tokens' = [mkToken UNKNOWN "@"].
Proof.
  assert (Hh : holds (token_list (first_frame "@x")) [])
    by (by apply create_token_list_holds).
  assert (Hr : room (token_list (first_frame "@x"))) by (left; simpl; lia).
  split; [reflexivity|].
  destruct (X3_unknown_step (first_frame "@x") [] "@" "x"
              ltac:(reflexivity) ltac:(reflexivity) ltac:(reflexivity)
              ltac:(reflexivity) ltac:(reflexivity)
              ltac:(unfold first_frame; cbn [buffer]; rewrite length_replicate; lia)
              Hh Hr)
    as (tokens' & Hs & Hseq & _).
  exists tokens'. split; [exact Hs|exact Hseq].
Defined.

(* ================================================================= *)
(** * Further properties of the whole scan *)

Lemma length_append_string s1 s2 :
  String.length (s1 +:+ s2) = (String.length s1 + String.length s2)%nat.
Proof.
  induction s1 as [|a s1 IH]; [done|].
  change (String a s1 +:+ s2) with (String a (s1 +:+ s2)). simpl. by rewrite IH.
Qed.

Lemma lex_loop_skip_whitespace w s toks buf idx fuel :
  all_chars isspace w = true ->
  lex_loop (String.length w + fuel)
    {| file := w +:+ s; token_list := toks; buffer := buf; buffer_index := idx |}
  = lex_loop fuel
      {| file := s; token_list := toks; buffer := buf; buffer_index := idx |}.
Proof.
  induction w as [|a w IH]; [done|]. intros Hw.
  simpl in Hw. apply andb_prop in Hw as [Ha Hw].
  change (String a w +:+ s) with (String a (w +:+ s)).
  change (String.length (String a w) + fuel)%nat
    with (S (String.length w + fuel)).
  rewrite lex_loop_S, (scan_step_space _ a (w +:+ s)) by done.
  rewrite bind_Ok. cbn [file token_list buffer buffer_index]. by apply IH.
Qed.

Lemma lex_file_skip_whitespace stack w source :
  all_chars isspace w = true ->
  lex_file stack (w +:+ source) = lex_file stack source.
Proof.
  intros Hw. unfold lex_file. rewrite length_append_string.
  replace (S (String.length w + String.length source))
    with (String.length w + S (String.length source))%nat by lia.
  by apply lex_loop_skip_whitespace.
Qed.

(** X4.  Whitespace in front of a source changes nothing: the scan of the
    source with any run of whitespace before it gives the same result,
    token list or fault, as the scan of the source alone. *)
Theorem X4_leading_whitespace (stack : nat -> Z) (w source : string) :
  all_chars isspace w = true ->
  lex_file stack (w +:+ source) = lex_file stack source
  /\ scan stack (w +:+ source) = scan stack source.
Proof.
  intros Hw. unfold scan. by rewrite lex_file_skip_whitespace.
Qed.

Lemma X4_leading_whitespace_witness :
  all_chars isspace (String " " (String "010" "")) = true
  /\ scan (fun _ => 0) (String " " (String "010" "") +:+ "int x")
     = scan (fun _ => 0) "int x".
Proof.
  split; [reflexivity|].
  apply (X4_leading_whitespace (fun _ => 0) (String " " (String "010" "")) "int x").
  reflexivity.
Defined.

(** X5.  The loop of [lex] ends on every state, whatever the bytes of the
    stream and the contents of the buffer: with more fuel than the stream
    has bytes it does not run out of it, and any larger amount of fuel
    gives the same result.  So [lex] comes to an end on every source, with
    a token list or with a fault. *)
Theorem X5_termination (st : frame) (fuel fuel' : nat) :
  (String.length (file st) < fuel)%nat -> (fuel <= fuel')%nat ->
  lex_loop fuel st <> OutOfFuel
  /\ lex_loop fuel' st = lex_loop fuel st
  /\ forall stack source, lex_file stack source <> OutOfFuel.
Proof.
  intros Hf Hle.
  pose proof (lex_loop_fuel fuel st Hf) as Hd.
  split; [done|]. split; [by apply lex_loop_more_fuel|].
  apply lex_file_terminates.
Qed.

Lemma X5_termination_witness :
  (String.length (file (first_frame "x;")) < 3)%nat
  /\ lex_loop 3 (first_frame "x;") <> OutOfFuel
  /\ lex_loop 7 (first_frame "x;") = lex_loop 3 (first_frame "x;").
Proof.
  destruct (X5_termination (first_frame "x;") 3 7 ltac:(simpl; lia) ltac:(lia))
    as (H1 & H2 & _).
  split; [simpl; lia|]. split; [exact H1|exact H2].
Defined.

(** X6.  The byte 255 ends the scan where an iteration meets it: read
    into the [char] [c] it equals [EOF], so the loop is left and whatever
    follows the byte is never read.  A source that starts with it, after
    whitespace or not, gives the empty token sequence. *)
Theorem X6_byte_255_ends_scan (stack : nat -> Z) (st : frame) (w rest : string) :
  all_chars isspace w = true ->
  file st = String "255" rest ->
  scan_step st = Ok None
  /\ lex_file stack (w +:+ String "255" rest) = Ok (create_token_list 10)
  /\ scan stack (w +:+ String "255" rest) = Ok [].
Proof.
  intros Hw Hf.
  split; [by apply (scan_step_eof_byte st "255" rest)|].
  assert (Hl : lex_file stack (w +:+ String "255" rest) = Ok (create_token_list 10)).
  { rewrite lex_file_skip_whitespace by done. unfold lex_file.
    by rewrite lex_loop_S, (scan_step_eof_byte _ "255" rest). }
  split; [done|]. unfold scan. by rewrite Hl.
Qed.

Lemma X6_byte_255_ends_scan_witness :
  all_chars isspace " " = true
  /\ file (first_frame (String "255" "int")) = String "255" "int"
  /\ scan (fun _ => 0) (" " +:+ String "255" "int") = Ok [].
Proof.
  split; [reflexivity|]. split; [reflexivity|].
  apply (X6_byte_255_ends_scan (fun _ => 0) (first_frame (String "255" "int"))
           " " "int"); reflexivity.
Defined.

(** *** The contents of the uninitialised buffer *)

Lemma scan_step_same_but_buffer st1 st2 :
  same_but_buffer st1 st2 ->
  match scan_step st1, scan_step st2 with
  | Ok None, Ok None => True
  | Ok (Some st1'), Ok (Some st2') => same_but_buffer st1' st2'
  | Fault f1, Fault f2 => f1 = f2
  | Exit status1 message1, Exit status2 message2 =>
      status1 = status2 /\ message1 = message2
  | _, _ => False
  end.
Proof.
  destruct st1 as [f toks buf1 i1], st2 as [f2 toks2 buf2 i2].
  unfold same_but_buffer. cbn [file token_list buffer buffer_index].
  intros (<- & <- & -> & -> & Hl1 & Hl2).
  set (st1 := {| file := f; token_list := toks; buffer := buf1; buffer_index := 0 |}).
  set (st2 := {| file := f; token_list := toks; buffer := buf2; buffer_index := 0 |}).
  destruct f as [|a rest].
  { by rewrite !scan_step_eof. }
  assert (Hf1 : file st1 = String a rest) by done.
  assert (Hf2 : file st2 = String a rest) by done.
  destruct (char_of_ascii a =? EOF) eqn:He.
  { by rewrite (scan_step_eof_byte _ _ _ Hf1 He), (scan_step_eof_byte _ _ _ Hf2 He). }
  destruct (isspace (char_of_ascii a)) eqn:Hs.
  { by rewrite (scan_step_space _ _ _ Hf1 Hs), (scan_step_space _ _ _ Hf2 Hs). }
  destruct (isalpha (char_of_ascii a)) eqn:Ha.
  { destruct (le_lt_dec 255 (String.length (run_of isalnum rest))) as [Hlong|Hfit].
    - rewrite (scan_step_overflow st1 a rest isalnum), (scan_step_overflow st2 a rest isalnum);
        auto.
    - rewrite (scan_step_alpha st1 a rest), (scan_step_alpha st2 a rest) by done.
      subst st1 st2. cbn [token_list buffer]. case_add_token; [|by simpl..].
      rewrite !bind_Ok. unfold same_but_buffer.
      cbn [file token_list buffer buffer_index]. by rewrite !length_replicate. }
  destruct (isdigit (char_of_ascii a)) eqn:Hd.
  { destruct (le_lt_dec 255 (String.length (run_of isdigit rest))) as [Hlong|Hfit].
    - rewrite (scan_step_overflow st1 a rest isdigit), (scan_step_overflow st2 a rest isdigit);
        auto.
    - rewrite (scan_step_digit st1 a rest), (scan_step_digit st2 a rest) by done.
      subst st1 st2. cbn [token_list buffer]. case_add_token; [|by simpl..].
      rewrite !bind_Ok. unfold same_but_buffer.
      cbn [file token_list buffer buffer_index]. by rewrite !length_replicate. }
  assert (Han : isalnum (char_of_ascii a) = false).
  { unfold isalnum. by rewrite Ha, Hd. }
  destruct (punctuation_token (char_of_ascii a)) as [tok|] eqn:Hp.
  { rewrite (scan_step_punctuation st1 _ _ _ Hf1 Hp),
      (scan_step_punctuation st2 _ _ _ Hf2 Hp).
    subst st1 st2. cbn [token_list buffer buffer_index].
    case_add_token; [|by simpl..].
    rewrite !bind_Ok. unfold same_but_buffer.
    by cbn [file token_list buffer buffer_index]. }
  rewrite (scan_step_unknown st1 _ _ Hf1 He Hs Han Hp),
    (scan_step_unknown st2 _ _ Hf2 He Hs Han Hp)
    by (subst st1 st2; cbn [buffer]; lia).
  subst st1 st2. cbn [token_list buffer buffer_index]. case_add_token; [|by simpl..].
  rewrite !bind_Ok. unfold same_but_buffer.
  cbn [file token_list buffer buffer_index]. by rewrite !length_insert.
Qed.

Lemma lex_loop_same_but_buffer fuel st1 st2 :
  same_but_buffer st1 st2 -> lex_loop fuel st1 = lex_loop fuel st2.
Proof.
  revert st1 st2. induction fuel as [|fuel IH]; intros st1 st2 Hsame; [done|].
  rewrite !lex_loop_S.
  pose proof (scan_step_same_but_buffer st1 st2 Hsame) as Hstep.
  destruct (scan_step st1) as [[st1'|]|f1|status1 message1|],
    (scan_step st2) as [[st2'|]|f2|status2 message2|];
    try done.
  - rewrite !bind_Ok. by apply IH.
  - rewrite !bind_Ok. by destruct Hsame as (_ & -> & _).
  - simpl. by rewrite Hstep.
  - simpl. by destruct Hstep as [-> ->].
Qed.

(** X7.  What the uninitialised scratch buffer holds when [lex] starts
    never shows in the result: for every source, two runs that start with
    different contents in [buffer] end alike, with the same token list or
    with the same fault.  The buffer is only read up to a NUL that the
    same iteration has written. *)
Theorem X7_uninitialised_buffer (stack1 stack2 : nat -> Z) :
  (forall source, lex_file stack1 source = lex_file stack2 source)
  /\ (forall source, scan stack1 source = scan stack2 source)
  /\ (forall fs filename, lex stack1 fs filename = lex stack2 fs filename).
Proof.
  assert (H : forall source, lex_file stack1 source = lex_file stack2 source).
  { intros source. unfold lex_file. apply lex_loop_same_but_buffer.
    unfold same_but_buffer, uninitialised.
    cbn [file token_list buffer buffer_index].
    by rewrite !length_fmap, !length_seq. }
  split; [done|]. split.
  - intros source. unfold scan. by rewrite H.
  - intros fs filename. unfold lex.
    destruct (fopen fs filename) as [source|]; [|done]. by rewrite H.
Qed.

(** *** The tokens of a scan *)

Lemma lexeme_run a rest :
  isalpha (char_of_ascii a) = true ->
  (String.length (run_of isalnum rest) < 255)%nat ->
  lexeme {| type := kind_of_run (String a (run_of isalnum rest));
            value := String a (run_of isalnum rest) |} = true.
Proof.
  intros Ha Hlen.
  assert (Hrun : alphabetic_run (String a (run_of isalnum rest)) = true)
    by (simpl; by rewrite Ha, all_chars_run_of).
  assert (Hle : (String.length (String a (run_of isalnum rest)) <=? 255)%nat = true)
    by (apply Nat.leb_le; simpl; lia).
  generalize dependent (String a (run_of isalnum rest)). intros run Hrun Hle.
  unfold lexeme, kind_of_run. cbn [type value].
  destruct (decide (run = "int")) as [E1|E1].
  { by rewrite (bool_decide_eq_true_2 _ E1). }
  rewrite (bool_decide_eq_false_2 _ E1).
  destruct (decide (run = "return")) as [E2|E2].
  { rewrite (bool_decide_eq_true_2 _ E2). cbn [type value].
    by rewrite ?bool_decide_eq_true_2. }
  rewrite (bool_decide_eq_false_2 _ E2). cbn [type value].
  by rewrite Hrun, Hle.
Qed.

Lemma lexeme_digits a rest :
  isdigit (char_of_ascii a) = true ->
  (String.length (run_of isdigit rest) < 255)%nat ->
  lexeme {| type := INT_LITERAL; value := String a (run_of isdigit rest) |} = true.
Proof.
  intros Hd Hlen. unfold lexeme. cbn [type value]. simpl.
  rewrite Hd, all_chars_run_of. simpl. apply Nat.leb_le. lia.
Qed.

Lemma lexeme_punctuation c tok :
  punctuation_token c = Some tok -> lexeme tok = true.
Proof.
  unfold punctuation_token. intros Hp.
  repeat match type of Hp with
         | context [?x =? ?y] => destruct (x =? y); [by injection Hp as <-|]
         end.
  discriminate.
Qed.

Lemma lexeme_unknown a :
  (char_of_ascii a =? EOF) = false -> isspace (char_of_ascii a) = false ->
  isalnum (char_of_ascii a) = false ->
  punctuation_token (char_of_ascii a) = None ->
  lexeme {| type := UNKNOWN;
            value := if char_of_ascii a =? 0 then "" else String a "" |} = true.
Proof.
  intros He Hs Han Hp. unfold lexeme. cbn [type value].
  destruct (char_of_ascii a =? 0); [done|].
  by rewrite He, Hs, Han, bool_decide_eq_true_2.
Qed.

(** The outcomes of an iteration, as in [scan_step_outcome], with the
    token that is appended and its lexical form. *)
Lemma scan_step_lexeme st :
  runs_fit (file st) = true -> buffer_index st = 0 ->
  length (buffer st) = 256%nat ->
  scan_step st = Ok None
  \/ (exists rest,
        (String.length rest < String.length (file st))%nat
        /\ runs_fit rest = true
        /\ scan_step st
           = Ok (Some {| file := rest; token_list := token_list st;
                         buffer := buffer st; buffer_index := 0 |}))
  \/ (exists tok rest buf,
        (String.length rest < String.length (file st))%nat
        /\ runs_fit rest = true
        /\ length buf = 256%nat
        /\ lexeme tok = true
        /\ scan_step st
           = (tokens ← add_token (token_list st) (type tok) (value tok);
              Ok (Some {| file := rest; token_list := tokens;
                          buffer := buf; buffer_index := 0 |}))).
Proof.
  destruct st as [f toks buf idx]. cbn [file buffer buffer_index token_list].
  intros Hfit -> Hlen.
  set (st := {| file := f; token_list := toks; buffer := buf; buffer_index := 0 |}).
  assert (Hidx : buffer_index st = 0) by done.
  assert (Hlen' : length (buffer st) = 256%nat) by done.
  destruct f as [|a rest]; [left; by apply scan_step_eof|].
  assert (Hf : file st = String a rest) by done.
  destruct (char_of_ascii a =? EOF) eqn:He;
    [left; by apply (scan_step_eof_byte _ _ _ Hf)|].
  unfold runs_fit in Hfit.
  destruct (isspace (char_of_ascii a)) eqn:Hs.
  { right; left. exists rest. split; [simpl; lia|].
    split; [by apply runs_within_tail in Hfit|].
    by rewrite (scan_step_space _ _ _ Hf Hs). }
  right; right.
  destruct (isalpha (char_of_ascii a)) eqn:Ha.
  { pose proof Hfit as Hfit'. simpl in Hfit'.
    rewrite (isalpha_isalnum _ Ha) in Hfit'. simpl in Hfit'.
    destruct (runs_within_run_of isalnum 255 1 rest) as [H1 H2]; [done|lia|done|].
    eexists {| type := _; value := _ |}, _, _.
    split; [|split; [|split; [|split;
      [|apply (scan_step_alpha _ _ _ Hf Ha Hidx Hlen'); lia]]]].
    - simpl. pose proof (fgetc_length (after_run isalnum rest)).
      pose proof (after_run_length isalnum rest). lia.
    - by apply fgetc_runs_within in H2.
    - by rewrite length_replicate.
    - apply lexeme_run; [done|lia]. }
  destruct (isdigit (char_of_ascii a)) eqn:Hd.
  { pose proof Hfit as Hfit'. simpl in Hfit'.
    rewrite (isdigit_isalnum _ Hd) in Hfit'. simpl in Hfit'.
    destruct (runs_within_run_of isdigit 255 1 rest) as [H1 H2];
      [apply isdigit_isalnum|lia|done|].
    eexists {| type := _; value := _ |}, _, _.
    split; [|split; [|split; [|split;
      [|apply (scan_step_digit _ _ _ Hf Hd Hidx Hlen'); lia]]]].
    - simpl. pose proof (after_pushback_length (after_run isdigit rest)).
      pose proof (after_run_length isdigit rest). lia.
    - by apply after_pushback_runs_within.
    - by rewrite length_replicate.
    - apply lexeme_digits; [done|lia]. }
  assert (Han : isalnum (char_of_ascii a) = false).
  { unfold isalnum. by rewrite Ha, Hd. }
  apply runs_within_tail in Hfit.
  destruct (punctuation_token (char_of_ascii a)) as [tok|] eqn:Hp.
  { exists tok, rest, buf. split; [simpl; lia|]. split; [done|]. split; [done|].
    split; [by eapply lexeme_punctuation|].
    by rewrite (scan_step_punctuation _ _ _ _ Hf Hp). }
  eexists {| type := _; value := _ |}, _, _.
  split; [|split; [|split; [|split;
    [|apply (scan_step_unknown _ _ _ Hf He Hs Han Hp); rewrite Hlen'; lia]]]].
  - simpl. lia.
  - done.
  - by rewrite !length_insert.
  - by apply lexeme_unknown.
Qed.

Lemma lex_loop_summary (N : nat) fuel st toks :
  runs_fit (file st) = true -> buffer_index st = 0 ->
  length (buffer st) = 256%nat ->
  add_tokens (create_token_list 10) toks = Ok (token_list st) ->
  holds (token_list st) toks -> 1 <= capacity (token_list st) ->
  Forall (fun t => lexeme t = true) toks ->
  (length toks + String.length (file st) <= N)%nat ->
  sizeof_Token * (2 * Z.of_nat N) < 2 ^ SIZE_WIDTH ->
  (String.length (file st) < fuel)%nat ->
  exists l toks',
    lex_loop fuel st = Ok l
    /\ add_tokens (create_token_list 10) toks' = Ok l
    /\ holds l toks'
    /\ Forall (fun t => lexeme t = true) toks'
    /\ (length toks' <= N)%nat.
Proof.
  intros Hfit Hidx Hlen Hadd Hh Hc Hlex HN Hb Hfuel.
  revert st toks Hfit Hidx Hlen Hadd Hh Hc Hlex HN Hfuel.
  induction fuel as [|fuel IH];
    intros st toks Hfit Hidx Hlen Hadd Hh Hc Hlex HN Hfuel; [lia|].
  rewrite lex_loop_S.
  destruct (scan_step_lexeme st Hfit Hidx Hlen)
    as [->|[(rest & H1 & H2 & ->)|(tok & rest & buf & H1 & H2 & H3 & H4 & ->)]].
  - rewrite bind_Ok. exists (token_list st), toks.
    split; [done|]. split; [done|]. split; [done|]. split; [done|lia].
  - rewrite bind_Ok. apply (IH _ toks); cbn [file token_list buffer buffer_index];
      try done; lia.
  - destruct (add_token_holds (token_list st) toks (type tok) (value tok))
      as (l' & Hl' & Hh' & Hc');
      [done|apply (holds_room _ toks N); [done|done|lia|done]|].
    rewrite Hl', !bind_Ok.
    apply (IH _ (toks ++ [{| type := type tok; value := value tok |}]));
      cbn [file token_list buffer buffer_index]; try done.
    + rewrite add_tokens_app, Hadd, bind_Ok. simpl. by rewrite Hl'.
    + rewrite Hc'. destruct (_ =? _); lia.
    + apply Forall_app. split; [done|]. constructor; [|done]. by destruct tok.
    + rewrite length_app. simpl. lia.
    + lia.
Qed.

Lemma lex_file_summary stack source :
  runs_fit source = true -> Z.of_nat (String.length source) < 2 ^ 59 ->
  exists l toks,
    lex_file stack source = Ok l
    /\ add_tokens (create_token_list 10) toks = Ok l
    /\ holds l toks
    /\ Forall (fun t => lexeme t = true) toks
    /\ (length toks <= String.length source)%nat.
Proof.
  intros Hfit Hlen. unfold lex_file.
  destruct (initial_frame stack source) as (Hidx & Hbuf & Hh & _).
  cbn zeta in *.
  apply (lex_loop_summary (String.length source) _ _ []); try done.
  - unfold sizeof_Token, SIZE_WIDTH.
    replace (2 ^ 64) with (32 * 2 ^ 59) by reflexivity. lia.
  - simpl. lia.
Qed.

(** X8.  Every token of a scan has the text of its kind.  For a source
    whose runs fit the scratch buffer (and that is shorter than 2^59
    bytes) the scan returns, and in its sequence a keyword token has the
    text "int" or "return", an identifier is an alphabetic run of at most
    255 characters that is neither keyword, a literal is a run of at most
    255 digits, a punctuation token has its one character as text, and
    an [UNKNOWN] token has one character that is none of these, or the
    empty text. *)
Theorem X8_token_forms (stack : nat -> Z) (source : string) :
  runs_fit source = true -> Z.of_nat (String.length source) < 2 ^ 59 ->
  exists toks,
    scan stack source = Ok toks /\ Forall (fun t => lexeme t = true) toks.
Proof.
  intros Hfit Hlen.
  destruct (lex_file_summary stack source Hfit Hlen) as (l & toks & Hl & _ & Hh & Hlex & _).
  exists toks. unfold scan. rewrite Hl, bind_Ok.
  by rewrite (token_seq_holds _ _ Hh).
Qed.

Lemma X8_token_forms_witness :
  runs_fit "int x1 = 42;" = true
  /\ exists toks,
       scan (fun _ => 0) "int x1 = 42;" = Ok toks
       /\ Forall (fun t => lexeme t = true) toks.
Proof.
  split; [reflexivity|].
  apply (X8_token_forms (fun _ => 0) "int x1 = 42;");
    [reflexivity|vm_compute; reflexivity].
Defined.



(* ================================================================= *)
(** * Appending, printing and the entry point *)

(** X10.  An append that stays inside the block never disturbs what the
    list holds, well formed or not: the new token is in the slot at the
    old [size], every slot below it keeps its contents (also across the
    [realloc]), [size] grows by one, and the capacity is the old one or,
    when the list was full, its double (as a [size_t]). *)
Theorem X10_add_token_slots
    (l l' : TokenList) (ty : TokenType) (v : string) :
  add_token l ty v = Ok l' ->
  tokens l' !! Z.to_nat (size l) = Some (Some {| type := ty; value := v |})
  /\ size l' = to_size_t (size l + 1)
  /\ (forall i : nat, (i < Z.to_nat (size l))%nat -> (i < length (tokens l))%nat ->
      tokens l' !! i = tokens l !! i)
  /\ (capacity l' = capacity l
      \/ (capacity l <= size l /\ capacity l' = to_size_t (capacity l * 2))).
Proof.
  unfold add_token.
  destruct (grow l) as [grown| | |] eqn:Hg; [|done..]. rewrite bind_Ok.
  assert (Hgrown :
    size grown = size l
    /\ (forall i : nat, (i < length (tokens grown))%nat ->
        (i < length (tokens l))%nat -> tokens grown !! i = tokens l !! i)
    /\ (capacity grown = capacity l
        \/ (capacity l <= size l /\ capacity grown = to_size_t (capacity l * 2)))).
  { unfold grow in Hg.
    destruct (Z.geb_spec (size l) (capacity l)); [|injection Hg as <-; auto].
    unfold realloc_tokens in Hg. destruct (_ =? 0); [done|].
    injection Hg as <-. cbn [tokens size capacity].
    split; [done|]. split; [|right; split; [lia|done]].
    intros i Hi Hil. rewrite length_take in Hi.
    rewrite lookup_take_lt by lia. by rewrite lookup_app_l. }
  destruct Hgrown as (Hsz & Hkeep & Hcap).
  unfold store_token. rewrite Hsz.
  destruct (Z.leb_spec 0 (size l)) as [H0|]; [|done].
  destruct (Z.ltb_spec (size l) (Z.of_nat (length (tokens grown)))) as [Hlt|];
    [|done].
  simpl. intros [= <-]. cbn [tokens size capacity].
  split; [apply list_lookup_insert_eq; lia|]. split; [done|]. split; [|done].
  intros i Hi Hil. rewrite list_lookup_insert_ne by lia.
  apply Hkeep; lia.
Qed.

Lemma X10_add_token_slots_witness :
  add_token
    {| tokens := [Some (mkToken INT_KEYWORD "int"); Some (mkToken IDENTIFIER "x")];
       size := 2; capacity := 2 |} SEMICOLON ";"
  = Ok {| tokens := [Some (mkToken INT_KEYWORD "int"); Some (mkToken IDENTIFIER "x");
                     Some (mkToken SEMICOLON ";"); None];
          size := 3; capacity := 4 |}
  /\ tokens {| tokens := [Some (mkToken INT_KEYWORD "int");
                          Some (mkToken IDENTIFIER "x");
                          Some (mkToken SEMICOLON ";"); None];
               size := 3; capacity := 4 |} !! 2%nat
     = Some (Some (mkToken SEMICOLON ";")).
Proof.
  assert (H : add_token
                {| tokens := [Some (mkToken INT_KEYWORD "int");
                              Some (mkToken IDENTIFIER "x")];
                   size := 2; capacity := 2 |} SEMICOLON ";"
              = Ok {| tokens := [Some (mkToken INT_KEYWORD "int");
                                 Some (mkToken IDENTIFIER "x");
                                 Some (mkToken SEMICOLON ";"); None];
                      size := 3; capacity := 4 |}) by reflexivity.
  split; [exact H|].
  apply (X10_add_token_slots _ _ _ _ H).
Defined.

Lemma print_from_holds l toks (n i : nat) :
  holds l toks -> (i + n)%nat = length toks ->
  print_from l i n = Ok (token_lines (drop i toks)).
Proof.
  intros Hh. pose proof Hh as (Ht & _).
  revert i. induction n as [|n IH]; intros i Hin.
  - simpl. by rewrite drop_ge by lia.
  - destruct (lookup_lt_is_Some_2 toks i) as [t Hti]; [lia|].
    cbn [print_from]. rewrite Ht, lookup_app_l by (rewrite length_fmap; lia).
    rewrite list_lookup_fmap, Hti. cbn [fmap option_fmap option_map].
    rewrite IH by lia. rewrite bind_Ok.
    by rewrite (drop_S _ _ _ Hti).
Qed.

Lemma count_byte_append a s1 s2 :
  count_byte a (s1 +:+ s2) = (count_byte a s1 + count_byte a s2)%nat.
Proof.
  induction s1 as [|b s1 IH]; [done|].
  change (String b s1 +:+ s2) with (String b (s1 +:+ s2)). simpl. rewrite IH. lia.
Qed.

Lemma token_line_newlines t :
  count_byte "010" (value t) = 0%nat -> count_byte "010" (token_line t) = 1%nat.
Proof.
  intros Hv. unfold token_line. rewrite !count_byte_append, Hv.
  by destruct (type t).
Qed.

Lemma token_lines_newlines toks :
  Forall (fun t => count_byte "010" (value t) = 0%nat) toks ->
  count_byte "010" (token_lines toks) = length toks.
Proof.
  induction 1 as [|t toks Ht _ IH]; [done|].
  cbn [token_lines]. rewrite count_byte_append, (token_line_newlines _ Ht), IH.
  done.
Qed.

(** X11.  [print_tokens] on a well-formed list writes one line for every
    token it holds, in the order of the list and nothing else, each
    "Type: d, Value: text" with [d] the number of the kind in the
    enumeration; it reads no slot at or above [size].  When no text holds
    a line feed the output has as many line feeds as the list has
    tokens; for the empty list it is empty. *)
Theorem X11_print_tokens (l : TokenList) (toks : list Token) :
  holds l toks ->
  print_tokens l = Ok (token_lines toks)
  /\ (Forall (fun t => count_byte "010" (value t) = 0%nat) toks ->
      count_byte "010" (token_lines toks) = length toks)
  /\ (toks = [] -> print_tokens l = Ok "").
Proof.
  intros Hh. pose proof Hh as (_ & Hs & _).
  assert (Hp : print_tokens l = Ok (token_lines toks)).
  { unfold print_tokens. rewrite Hs, Nat2Z.id.
    by rewrite (print_from_holds l toks (length toks) 0 Hh). }
  split; [done|]. split; [apply token_lines_newlines|].
  intros ->. by rewrite Hp.
Qed.

Lemma X11_print_tokens_witness :
  holds {| tokens := [Some (mkToken INT_KEYWORD "int"); Some (mkToken SEMICOLON ";")];
           size := 2; capacity := 2 |}
        [mkToken INT_KEYWORD "int"; mkToken SEMICOLON ";"]
  /\ print_tokens
       {| tokens := [Some (mkToken INT_KEYWORD "int"); Some (mkToken SEMICOLON ";")];
          size := 2; capacity := 2 |}
     = Ok ("Type: 0, Value: int" +:+ newline +:+ "Type: 8, Value: ;" +:+ newline).
Proof.
  assert (Hh : holds
                 {| tokens := [Some (mkToken INT_KEYWORD "int");
                               Some (mkToken SEMICOLON ";")];
                    size := 2; capacity := 2 |}
                 [mkToken INT_KEYWORD "int"; mkToken SEMICOLON ";"]).
  { unfold holds. cbn [tokens size capacity].
    split; [reflexivity|]. split; [reflexivity|]. split; [lia|].
    vm_compute; reflexivity. }
  split; [exact Hh|].
  destruct (X11_print_tokens _ _ Hh) as (Hp & _). exact Hp.
Defined.

Lemma alnum_no_newline s :
  all_chars isalnum s = true -> count_byte "010" s = 0%nat.
Proof.
  induction s as [|b s IH]; [done|]. cbn [count_byte all_chars].
  intros [Hb Hs]%andb_prop. rewrite (IH Hs).
  destruct (Ascii.eqb_spec "010" b) as [<-|]; [by vm_compute in Hb|done].
Qed.

Lemma lexeme_no_newline t : lexeme t = true -> count_byte "010" (value t) = 0%nat.
Proof.
  destruct t as [ty v]. unfold lexeme. cbn [type value].
  destruct ty;
    try (intros Hv%bool_decide_eq_true_1; by subst v).
  - intros [[[Hrun _]%andb_prop _]%andb_prop _]%andb_prop.
    apply alnum_no_newline. destruct v as [|a v]; [done|].
    simpl in *. apply andb_prop in Hrun as [Ha Hv].
    by rewrite (isalpha_isalnum _ Ha), Hv.
  - intros [Hrun _]%andb_prop.
    apply alnum_no_newline. destruct v as [|a v]; [done|].
    simpl in *. apply andb_prop in Hrun as [Ha Hv].
    rewrite (isdigit_isalnum _ Ha). simpl.
    eapply all_chars_weaken; [|exact Hv]. apply isdigit_isalnum.
  - destruct v as [|a [|b v]]; [done| |done].
    intros [[[_ Hs]%andb_prop _]%andb_prop _]%andb_prop. cbn [count_byte].
    destruct (Ascii.eqb_spec "010" a) as [<-|]; [by vm_compute in Hs|done].
Qed.

Lemma argv_filename (argv : list string) name :
  argv !! 1%nat = Some name -> exists a0 more, argv = a0 :: name :: more.
Proof. destruct argv as [|a0 [|n more]]; [done..|]. intros [= ->]. eauto. Qed.

(** X12.  [main] ends with the failure status and with nothing written
    to the standard output in its two error cases: called without a file
    argument it opens nothing and reports "File not provided"; with a
    file that cannot be opened it reports the message of [lex] and then
    "Lexing file".  Conversely, the status 0 is only reached with a file
    argument that was opened. *)
Theorem X12_main_failure
    (stack : nat -> Z) (fs : filesystem) (argv : list string) :
  (length argv < 2)%nat
  \/ (exists name, argv !! 1%nat = Some name /\ fopen fs name = None) ->
  ((length argv < 2)%nat ->
   main stack fs argv
   = Ok {| status := EXIT_FAILURE; stdout := "";
           stderr := ["ERROR: File not provided."] |})
  /\ (forall name, argv !! 1%nat = Some name -> fopen fs name = None ->
      main stack fs argv
      = Ok {| status := EXIT_FAILURE; stdout := "";
              stderr := ["ERROR: Failed to open file. File may not exist.";
                         "ERROR: Lexing file."] |})
  /\ (exists p, main stack fs argv = Ok p /\ status p = 1 /\ stdout p = "")
  /\ (forall stack' fs' argv' p,
        main stack' fs' argv' = Ok p -> status p = 0 ->
        exists name source,
          argv' !! 1%nat = Some name /\ fopen fs' name = Some source).
Proof.
  intros Hcase.
  assert (H1 : (length argv < 2)%nat ->
               main stack fs argv
               = Ok {| status := EXIT_FAILURE; stdout := "";
                       stderr := ["ERROR: File not provided."] |}).
  { intros Hlen. destruct argv as [|a0 [|n more]]; [done|done|simpl in Hlen; lia]. }
  assert (H2 : forall name, argv !! 1%nat = Some name -> fopen fs name = None ->
               main stack fs argv
               = Ok {| status := EXIT_FAILURE; stdout := "";
                       stderr := ["ERROR: Failed to open file. File may not exist.";
                                  "ERROR: Lexing file."] |}).
  { intros name Hn Hf. destruct (argv_filename _ _ Hn) as (a0 & more & ->).
    unfold main, lex, lex_perror. by rewrite Hf. }
  split; [done|]. split; [done|]. split.
  - destruct Hcase as [Hlen|(name & Hn & Hf)].
    + eexists. split; [by apply H1|done].
    + eexists. split; [by apply (H2 name)|done].
  - intros stack' fs' argv' p Hm Hs.
    destruct argv' as [|a0 [|name more]]; [by injection Hm as <-..|].
    exists name. unfold main, lex in Hm.
    destruct (fopen fs' name) as [source|] eqn:Hf; [by exists source|].
    rewrite bind_Ok in Hm. by injection Hm as <-.
Qed.

Lemma X12_main_failure_witness :
  (length ["lexer"] < 2)%nat
  /\ main (fun _ => 0) (single_file "a.c" "int x;") ["lexer"]
     = Ok {| status := 1; stdout := ""; stderr := ["ERROR: File not provided."] |}
  /\ main (fun _ => 0) (single_file "a.c" "int x;") ["lexer"; "b.c"]
     = Ok {| status := 1; stdout := "";
             stderr := ["ERROR: Failed to open file. File may not exist.";
                        "ERROR: Lexing file."] |}.
Proof.
  assert (Hlen : (length ["lexer"] < 2)%nat) by (simpl; lia).
  assert (Hno : exists name,
             ["lexer"; "b.c"] !! 1%nat = Some name
             /\ fopen (single_file "a.c" "int x;") name = None)
    by (exists "b.c"; split; reflexivity).
  split; [exact Hlen|]. split.
  - destruct (X12_main_failure (fun _ => 0) (single_file "a.c" "int x;") ["lexer"]
                (or_introl Hlen)) as (H & _).
    exact (H Hlen).
  - destruct (X12_main_failure (fun _ => 0) (single_file "a.c" "int x;")
                ["lexer"; "b.c"] (or_intror Hno))
      as (_ & H & _).
    apply (H "b.c"); reflexivity.
Defined.

(** X13.  [main] on a file that opens and whose runs fit the scratch
    buffer (a file shorter than 2^59 bytes) ends with the status 0 and
    with no message; its standard output is the token sequence of the
    scan, a line for each token and in the order of the source, with as
    many line feeds as there are tokens.  Arguments after the file name
    are not looked at. *)
Theorem X13_main_success
    (stack : nat -> Z) (fs : filesystem) (a0 name source : string)
    (more : list string) :
  fopen fs name = Some source ->
  runs_fit source = true -> Z.of_nat (String.length source) < 2 ^ 59 ->
  exists toks,
    scan stack source = Ok toks
    /\ main stack fs (a0 :: name :: more)
       = Ok {| status := 0; stdout := token_lines toks; stderr := [] |}
    /\ count_byte "010" (token_lines toks) = length toks.
Proof.
  intros Hf Hfit Hlen.
  destruct (lex_file_summary stack source Hfit Hlen)
    as (l & toks & Hl & _ & Hh & Hlex & _).
  exists toks. split.
  { unfold scan. by rewrite Hl, bind_Ok, (token_seq_holds _ _ Hh). }
  split.
  - unfold main, lex, lex_perror. rewrite Hf, Hl, !bind_Ok.
    assert (Hp : print_tokens l = Ok (token_lines toks)).
    { unfold print_tokens. destruct Hh as (Ht & Hs & Hrest). rewrite Hs, Nat2Z.id.
      by rewrite (print_from_holds l toks (length toks) 0). }
    by rewrite Hp, bind_Ok.
  - apply token_lines_newlines.
    eapply Forall_impl; [exact Hlex|]. intros t. apply lexeme_no_newline.
Qed.

Lemma X13_main_success_witness :
  fopen (single_file "a.c" "int x;") "a.c" = Some "int x;"
  /\ runs_fit "int x;" = true
  /\ main (fun _ => 0) (single_file "a.c" "int x;") ["lexer"; "a.c"]
     = Ok {| status := 0;
             stdout := "Type: 0, Value: int" +:+ newline
                       +:+ "Type: 2, Value: x" +:+ newline;
             stderr := [] |}.
Proof.
  split; [reflexivity|]. split; [reflexivity|].
  destruct (X13_main_success (fun _ => 0) (single_file "a.c" "int x;")
              "lexer" "a.c" "int x;" []
              ltac:(reflexivity) ltac:(reflexivity) ltac:(vm_compute; reflexivity))
    as (toks & Hs & Hm & _).
  vm_compute in Hs. injection Hs as <-. exact Hm.
Defined.
